(** * go-ast-bridge: the per-call session pipeline of [main.go]

    A shallow embedding of the AudioSocket bridge: PCM conversion, the
    voice-activity gated read loop of [Handle], the utterance processor
    [handleInputAudio] and the playback relay [websocketSendReceive].

    Conventions.
    - Go [int] is a 64-bit two's complement integer: a [Z] wrapped by
      [wrap64] after every arithmetic operation the source performs.
    - [float32] and [float64] are IEEE 754 binary32 / binary64, computed
      with the reference operations of [SpecFloat] (round to nearest even).
    - [[]byte] is [list byte]; Go strings are [string] (UTF-8 bytes, compared
      bytewise as Go's [==] does).
    - Third-party packages (audiosocket, go-webrtcvad, go-ollama, the HTTP
      services) are not part of the repository: they appear as Section
      variables threading an abstract state. *)

From Stdlib Require Import ZArith QArith List String Ascii Bool Lia Arith.
From Stdlib.Strings Require Import Byte.
From Stdlib Require Import SpecFloat.
Import ListNotations.

Set Implicit Arguments.
Local Open Scope Z_scope.

(** ** Results: Go's [(value, error)] pairs *)

Inductive result (E A : Type) : Type :=
| Ok (a : A)
| Err (e : E).
Arguments Ok {E A} a.
Arguments Err {E A} e.

(** ** Machine integers *)

Definition wrap64 (z : Z) : Z := (z + 2 ^ 63) mod 2 ^ 64 - 2 ^ 63.

Definition int16_of_uint16 (u : Z) : Z :=
  if u <? 32768 then u else u - 65536.

Definition byteZ (b : byte) : Z := Z.of_N (Byte.to_N b).

(** [binary.LittleEndian.Uint16] *)
Definition LittleEndian_Uint16 (b0 b1 : byte) : Z :=
  Z.lor (byteZ b0) (Z.shiftl (byteZ b1) 8).

(** ** IEEE 754 values *)

Module Float32.
Definition prec : Z := 24.
Definition emax : Z := 128.
Definition t := spec_float.
(** conversion [float32(n)] of an integer *)
Definition of_int (n : Z) : t := binary_normalize prec emax n 0 false.
Definition div (x y : t) : t := SFdiv prec emax x y.
End Float32.

Module Float64.
Definition prec : Z := 53.
Definition emax : Z := 1024.
Definition t := spec_float.
(** conversion [float64(n)] of an integer *)
Definition of_int (n : Z) : t := binary_normalize prec emax n 0 false.
Definition div (x y : t) : t := SFdiv prec emax x y.
Definition ltb (x y : t) : bool := SFltb x y.
End Float64.

(** The rational number a finite float denotes (0 for the others). *)
Definition float_value (f : spec_float) : Q :=
  match f with
  | S754_finite s m e =>
      (if s then Qopp (inject_Z (Zpos m)) else inject_Z (Zpos m)) * Qpower 2 e
  | _ => 0%Q
  end.

Definition is_finite (f : spec_float) : bool :=
  match f with
  | S754_zero _ | S754_finite _ _ _ => true
  | _ => false
  end.

(** ** [pcmToFloat32Array] (main.go, 318-335) *)

Inductive io_error := EOF | ErrUnexpectedEOF.

Inductive pcm_error :=
| ErrOddLength                       (* "pcm data length must be even" *)
| ErrReadSample (e : io_error).      (* "failed to read sample: %v" *)

(** [binary.Read(buf, binary.LittleEndian, &sample)] with [sample int16]
    on a [bytes.Reader]: the reader is the list of bytes not yet consumed. *)
Definition binary_Read_int16 (buf : list byte) : result io_error (Z * list byte) :=
  match buf with
  | [] => Err EOF
  | [_] => Err ErrUnexpectedEOF
  | b0 :: b1 :: rest => Ok (int16_of_uint16 (LittleEndian_Uint16 b0 b1), rest)
  end.

(** [float32(sample) / 32768.0] *)
Definition scale_sample (sample : Z) : Float32.t :=
  Float32.div (Float32.of_int sample) (Float32.of_int 32768).

(** The loop [for i := 0; i < len(float32Array); i++]: [n] iterations are
    left, [buf] is the reader; an error returns [nil, err]. *)
Fixpoint read_samples (n : nat) (buf : list byte) : result pcm_error (list Float32.t) :=
  match n with
  | O => Ok []
  | S n' =>
      match binary_Read_int16 buf with
      | Err e => Err (ErrReadSample e)
      | Ok (sample, buf') =>
          match read_samples n' buf' with
          | Err e => Err e
          | Ok out => Ok (scale_sample sample :: out)
          end
      end
  end.

Definition pcmToFloat32Array (pcmData : list byte) : result pcm_error (list Float32.t) :=
  if negb (Nat.eqb (Nat.modulo (List.length pcmData) 2) 0) then Err ErrOddLength
  else read_samples (Nat.div (List.length pcmData) 2) pcmData.

(** The [i]-th signed 16-bit little-endian sample of a byte sequence. *)
Definition sample_at (pcmData : list byte) (i : nat) : Z :=
  int16_of_uint16
    (LittleEndian_Uint16 (nth (2 * i) pcmData x00) (nth (2 * i + 1) pcmData x00)).

(** ** Exhaustive checks over the 16-bit samples *)

Fixpoint zrange (start : Z) (n : nat) : list Z :=
  match n with
  | O => []
  | S n' => start :: zrange (start + 1) n'
  end.

(** Scaling is exact on a 16-bit sample: the quotient is a finite binary32
    number whose value is the rational [sample / 32768]. *)
Definition scale_exact (u : Z) : bool :=
  let s := int16_of_uint16 u in
  is_finite (scale_sample s)
  && Qeq_bool (float_value (scale_sample s)) (inject_Z s / 32768).

Definition uint16_count : nat := Nat.pow 2 16.

(** ** Settings (chat.go) *)

(** Pointer-typed fields ([*int], [*float64], [*string]) are options:
    [nil] is [None].  Nothing in the session writes through them. *)
Record STTSettings := {
  stt_Language : string;
  stt_BeamSize : option Z;
  stt_BestOf : option Z;
  stt_Patience : option Float64.t;
  stt_NoSpeechThreshold : option Z;
  stt_Temperature : option Float64.t;
  stt_HallucinationSilenceThreshold : option Z
}.

Record LLMSettings := {
  llm_Model : string;
  llm_Seed : option Z;
  llm_SystemPrompt : option string;
  llm_Mirostat : option Z;
  llm_MirostatEta : option Float64.t;
  llm_MirostatTau : option Float64.t;
  llm_NumCtx : option Z;
  llm_RepeatLastN : option Z;
  llm_RepeatPenalty : option Float64.t;
  llm_Temperature : option Float64.t;
  llm_TfsZ : option Float64.t;
  llm_NumPredict : option Z;
  llm_TopK : option Z;
  llm_TopP : option Float64.t;
  llm_MinP : option Float64.t
}.

(** The assignment [sttSettings.Language = v] on a struct value. *)
Definition set_Language (s : STTSettings) (v : string) : STTSettings :=
  {| stt_Language := v;
     stt_BeamSize := stt_BeamSize s;
     stt_BestOf := stt_BestOf s;
     stt_Patience := stt_Patience s;
     stt_NoSpeechThreshold := stt_NoSpeechThreshold s;
     stt_Temperature := stt_Temperature s;
     stt_HallucinationSilenceThreshold := stt_HallucinationSilenceThreshold s |}.

(** The fields of [ollama.Options] that [handleInputAudio] fills. *)
Record Options := {
  opt_Seed : option Z;
  opt_Mirostat : option Z;
  opt_MirostatEta : option Float64.t;
  opt_MirostatTau : option Float64.t;
  opt_NumCtx : option Z;
  opt_RepeatLastN : option Z;
  opt_RepeatPenalty : option Float64.t;
  opt_TfsZ : option Float64.t;
  opt_Temperature : option Float64.t;
  opt_NumPredict : option Z
}.

Definition llmOptions_of (llmSettings : LLMSettings) : Options :=
  {| opt_Seed := llm_Seed llmSettings;
     opt_Mirostat := llm_Mirostat llmSettings;
     opt_MirostatEta := llm_MirostatEta llmSettings;
     opt_MirostatTau := llm_MirostatTau llmSettings;
     opt_NumCtx := llm_NumCtx llmSettings;
     opt_RepeatLastN := llm_RepeatLastN llmSettings;
     opt_RepeatPenalty := llm_RepeatPenalty llmSettings;
     opt_TfsZ := llm_TfsZ llmSettings;
     opt_Temperature := llm_Temperature llmSettings;
     opt_NumPredict := llm_NumPredict llmSettings |}.

(** ** Constants of main.go and chat.go *)

Definition websocketURI : string := "ws://localhost:8011/ws".
Definition transcribeURL : string := "http://localhost:8002/complete_transcribe_r".
Definition chatModel : string := "gemma2:9b".
Definition UserSender : string := "user".
Definition LLMSender : string := "assistant".

(** [rate := 16000] and [silenceThreshold := 5] of [Handle]. *)
Definition rate : Z := 16000.
Definition silenceThreshold : Z := 5.

(** The float64 constant [0.40]: the binary64 number nearest to 2/5. *)
Definition const_0_40 : Float64.t := S754_finite false 7205759403792794 (-54).

Definition excludedWords : list string :=
  [ "Продолжение следует...";
    "Субтитры сделал DimaTorzok";
    "Субтитры создавал DimaTorzok" ]%string.

(** ** [calculateAudioLength] (main.go, 286-296) *)

Definition totalSamples (inputAudioBuffer : list (list Float32.t)) : Z :=
  fold_left (fun total buffer => wrap64 (total + Z.of_nat (List.length buffer)))
            inputAudioBuffer 0.

Definition calculateAudioLength (inputAudioBuffer : list (list Float32.t))
    (sampleRate : Z) : Float64.t :=
  Float64.div (Float64.of_int (totalSamples inputAudioBuffer))
              (Float64.of_int sampleRate).

(** The test [length < 0.40] of [handleInputAudio], on [length :=
    calculateAudioLength(buffer, 16000)]. *)
Definition too_short (buffer : list (list Float32.t)) : bool :=
  Float64.ltb (calculateAudioLength buffer 16000) const_0_40.

(** The loop over [excludedWords] that returns on the first [==]. *)
Fixpoint is_excluded (transcription : string) (words : list string) : bool :=
  match words with
  | [] => false
  | word :: rest =>
      if String.eqb transcription word then true else is_excluded transcription rest
  end.

(** ** The payload sent to the synthesis service *)

Record relay_data := {
  data_message : string;
  data_language : string;
  data_speed : Q;
  data_await_time : Q
}.

(** ** Calls to the external collaborators, in the order they are made *)

Inductive event :=
| EvTranscribe (serverAddress : string) (audio : list Float32.t) (settings : STTSettings)
| EvSendMessage (chatID sender content : string)
| EvLLMChat (chatID model role content : string) (options : Options)
| EvRelay (uri : string) (data : relay_data) (conn : nat).

Definition is_transcribe (e : event) : bool :=
  match e with EvTranscribe _ _ _ => true | _ => false end.

(** Events after the transcription request: chat log, model, relay. *)
Definition is_downstream (e : event) : bool := negb (is_transcribe e).

(** ** Audio payloads

    A payload the loop converts and classifies: non-empty, of even length. *)
Definition audio_frame (p : list byte) : bool :=
  negb (Nat.eqb (List.length p) 0) && Nat.even (List.length p).

(** The samples of a payload, scaled: what [pcmToFloat32Array] returns on it. *)
Definition pcm_floats (p : list byte) : list Float32.t :=
  map (fun i => scale_sample (sample_at p i)) (seq 0 (Nat.div (List.length p) 2)).

(** A chunk of [n] samples, and an utterance of [k] chunks of 160 samples
    (a 320-byte frame: 20 ms of the 8 kHz stream). *)
Definition chunk (n : nat) : list Float32.t := repeat (scale_sample 1) n.
Definition utterance_of (k : nat) : list (list Float32.t) := repeat (chunk 160) k.

(** The settings a transcription request carries. *)
Definition transcribes_with (settings : STTSettings) (e : event) : Prop :=
  match e with
  | EvTranscribe _ _ settings' => settings' = settings
  | _ => True
  end.

(** ** AudioSocket messages as [Handle] sees them *)

Inductive Kind :=
| KindHangup | KindID | KindSilence | KindSlin | KindError | KindOther (tag : byte).

Record Message := { Kind_of : Kind; Payload : list byte }.

(** The length field of the header is the length of the payload read. *)
Definition ContentLength (m : Message) : Z := Z.of_nat (List.length (Payload m)).

(** What [audiosocket.NextMessage] hands to the loop: end of stream, another
    read error (the message is then nil and its kind reads as [KindError]),
    or a message. *)
Inductive received :=
| RecvEOF
| RecvFail
| Recv (m : Message).

Definition slin (p : list byte) : received :=
  Recv {| Kind_of := KindSlin; Payload := p |}.

Definition hangup (p : list byte) : received :=
  Recv {| Kind_of := KindHangup; Payload := p |}.

Inductive control := Continue | Return.

(** One call of [handleInputAudio], with the arguments it was given. *)
Record call := {
  call_buffer : list (list Float32.t);
  call_chatID : string;
  call_stt : STTSettings;
  call_llm : LLMSettings
}.

Section Session.

(** The voice activity detector of go-webrtcvad: a stateful classifier. *)
Variable VAD : Type.
Variable vad_error : Type.
Variable vad_Process : VAD -> Z -> list byte -> result vad_error bool * VAD.

(** The external services, each acting on the state of the outside world:
    the transcription endpoint behind [sendFloat32ArrayToServer], the chat
    log behind [API.SendMessage], the model behind [LLM.Chat], and the
    relay task spawned by [websocketSendReceive]. *)
Variable World : Type.
Variable service_error : Type.
Variable sendFloat32ArrayToServer :
  string -> list Float32.t -> STTSettings -> World -> result service_error string * World.
Variable API_SendMessage :
  string -> string -> string -> World -> result service_error unit * World.
Variable LLM_Chat :
  string -> string -> string -> string -> Options -> World ->
  result service_error string * World.
Variable websocketSendReceive : string -> relay_data -> nat -> World -> World.

(** The verdicts of the detector on consecutive payloads, and the state it
    is left in. *)
Fixpoint classify (v : VAD) (frames : list (list byte)) : list (result vad_error bool) :=
  match frames with
  | [] => []
  | p :: rest => fst (vad_Process v rate p) :: classify (snd (vad_Process v rate p)) rest
  end.

Fixpoint vad_after (v : VAD) (frames : list (list byte)) : VAD :=
  match frames with
  | [] => v
  | p :: rest => vad_after (snd (vad_Process v rate p)) rest
  end.

(** *** [handleInputAudio] (main.go, 195-284)

    Returns the world it leaves and the external calls it made. *)
Definition handleInputAudio (conn : nat) (buffer : list (list Float32.t))
    (chatID : string) (sttSettings : STTSettings) (llmSettings : LLMSettings)
    (w : World) : World * list event :=
  let mergedBuffer := List.concat buffer in
  let length := calculateAudioLength buffer 16000 in
  if Float64.ltb length const_0_40 then (w, [])
  else
    let sttSettings := set_Language sttSettings "ru" in
    let ev1 := [EvTranscribe transcribeURL mergedBuffer sttSettings] in
    match sendFloat32ArrayToServer transcribeURL mergedBuffer sttSettings w with
    | (Err _, w1) => (w1, ev1)
    | (Ok transcription, w1) =>
        let llmOptions := llmOptions_of llmSettings in
        if is_excluded transcription excludedWords then (w1, ev1)
        else
          let ev2 := ev1 ++ [EvSendMessage chatID "user" transcription] in
          match API_SendMessage chatID "user" transcription w1 with
          | (Err _, w2) => (w2, ev2)
          | (Ok _, w2) =>
              let ev3 := ev2 ++ [EvLLMChat chatID chatModel UserSender
                                           transcription llmOptions] in
              match LLM_Chat chatID chatModel UserSender transcription llmOptions w2 with
              | (Err _, w3) => (w3, ev3)
              | (Ok content, w3) =>
                  let ev4 := ev3 ++ [EvSendMessage chatID "assistant" content] in
                  match API_SendMessage chatID "assistant" content w3 with
                  | (Err _, w4) => (w4, ev4)
                  | (Ok _, w4) =>
                      let data := {| data_message := content;
                                     data_language := "ru";
                                     data_speed := 1;
                                     data_await_time := 15 # 1000 |} in
                      (websocketSendReceive websocketURI data conn w4,
                       ev4 ++ [EvRelay websocketURI data conn])
                  end
              end
          end
    end.

(** *** The read loop of [Handle] (main.go, 143-193)

    The locals of [Handle] that the loop reads or writes.  [sttSettings]
    and [llmSettings] are the structs behind the two pointers fetched
    before the loop.  [calls] is a history variable: the arguments of
    every call of [handleInputAudio] so far. *)
Record session := {
  conn : nat;
  ChatID : string;
  vad : VAD;
  sttSettings : STTSettings;
  llmSettings : LLMSettings;
  inputAudioBuffer : list (list Float32.t);
  silenceCount : Z;
  world : World;
  trace : list event;
  calls : list call
}.

Definition Handle_start (c : nat) (id : string) (v : VAD)
    (stt : STTSettings) (llm : LLMSettings) (w : World) : session :=
  {| conn := c; ChatID := id; vad := v; sttSettings := stt; llmSettings := llm;
     inputAudioBuffer := []; silenceCount := 0;
     world := w; trace := []; calls := [] |}.

Definition with_vad (s : session) (v : VAD) : session :=
  {| conn := conn s; ChatID := ChatID s; vad := v;
     sttSettings := sttSettings s; llmSettings := llmSettings s;
     inputAudioBuffer := inputAudioBuffer s; silenceCount := silenceCount s;
     world := world s; trace := trace s; calls := calls s |}.

Definition with_segment (s : session) (buffer : list (list Float32.t)) (count : Z)
    : session :=
  {| conn := conn s; ChatID := ChatID s; vad := vad s;
     sttSettings := sttSettings s; llmSettings := llmSettings s;
     inputAudioBuffer := buffer; silenceCount := count;
     world := world s; trace := trace s; calls := calls s |}.

(** The call [handleInputAudio(c, inputAudioBuffer, ChatID, *sttSettings,
    *llmSettings)] followed by [inputAudioBuffer = nil]: the structs are
    passed by value, the session keeps its own. *)
Definition process_sentence (s : session) : session :=
  let '(w', evs) := handleInputAudio (conn s) (inputAudioBuffer s) (ChatID s)
                                     (sttSettings s) (llmSettings s) (world s) in
  {| conn := conn s; ChatID := ChatID s; vad := vad s;
     sttSettings := sttSettings s; llmSettings := llmSettings s;
     inputAudioBuffer := []; silenceCount := silenceCount s;
     world := w'; trace := trace s ++ evs;
     calls := calls s ++ [{| call_buffer := inputAudioBuffer s;
                             call_chatID := ChatID s;
                             call_stt := sttSettings s;
                             call_llm := llmSettings s |}] |}.

(** What holds between a session and a later state of it when the settings
    are a snapshot: both structs are the same, every call of
    [handleInputAudio] made in between was given them, and every
    transcription request made in between carried the STT settings with the
    language forced to "ru". *)
Definition settings_kept (s s' : session) : Prop :=
  sttSettings s' = sttSettings s /\
  llmSettings s' = llmSettings s /\
  exists (cs : list call) (evs : list event),
    calls s' = calls s ++ cs /\
    trace s' = trace s ++ evs /\
    Forall (fun c => call_stt c = sttSettings s /\ call_llm c = llmSettings s) cs /\
    Forall (transcribes_with (set_Language (sttSettings s) "ru")) evs.

(** The [KindSlin] case once the payload is known to be non-empty. *)
Definition handle_slin (s : session) (audioData : list byte) : session :=
  match pcmToFloat32Array audioData with
  | Err _ => s
  | Ok floatArray =>
      match vad_Process (vad s) rate audioData with
      | (Err _, v) => with_vad s v
      | (Ok true, v) =>
          with_segment (with_vad s v) (inputAudioBuffer s ++ [floatArray]) 0
      | (Ok false, v) =>
          let s1 := with_segment (with_vad s v) (inputAudioBuffer s)
                                 (wrap64 (silenceCount s + 1)) in
          if silenceCount s1 >? silenceThreshold then
            if (0 <? Z.of_nat (List.length (inputAudioBuffer s1)))
            then process_sentence s1
            else s1
          else s1
      end
  end.

(** One iteration of [for ctx.Err() == nil]; the context is cancelled
    only by the deferred [cancel], so the guard holds at every iteration. *)
Definition Handle_iter (s : session) (r : received) : control * session :=
  match r with
  | RecvEOF => (Return, s)
  | RecvFail => (Continue, s)
  | Recv m =>
      match Kind_of m with
      | KindHangup => (Return, s)
      | KindError => (Continue, s)
      | KindSlin =>
          if ContentLength m <? 1 then (Continue, s)
          else (Continue, handle_slin s (Payload m))
      | _ => (Continue, s)
      end
  end.

(** The loop on the messages that arrive; when they are all consumed the
    loop is blocked in [NextMessage] ([Continue]). *)
Fixpoint Handle_loop (s : session) (input : list received) : control * session :=
  match input with
  | [] => (Continue, s)
  | r :: rest =>
      match Handle_iter s r with
      | (Return, s') => (Return, s')
      | (Continue, s') => Handle_loop s' rest
      end
  end.

End Session.

(** ** A concrete instance: a small detector and fixed services

    Used to run the session on concrete frames.  The detector refuses
    frames shorter than two samples and otherwise reports speech when some
    byte is non-zero; the world is the chat log. *)

Module Toy.

Definition World := list (string * string).

Definition vad_Process (v : unit) (sampleRate : Z) (audio : list byte)
    : result unit bool * unit :=
  if (List.length audio <? 4)%nat then (Err tt, tt)
  else (Ok (existsb (fun b => negb (Byte.eqb b x00)) audio), tt).

Definition sendFloat32ArrayToServer (reply : string) (serverAddress : string)
    (audio : list Float32.t) (settings : STTSettings) (w : World)
    : result unit string * World :=
  (Ok reply, w).

Definition API_SendMessage (chatID sender content : string) (w : World)
    : result unit unit * World :=
  (Ok tt, w ++ [(sender, content)]).

Definition LLM_Chat (chatID model role content : string) (options : Options)
    (w : World) : result unit string * World :=
  (Ok "hi there"%string, w).

Definition websocketSendReceive (uri : string) (data : relay_data) (c : nat)
    (w : World) : World := w.

Definition stt0 : STTSettings :=
  {| stt_Language := "en"; stt_BeamSize := Some 5; stt_BestOf := None;
     stt_Patience := None; stt_NoSpeechThreshold := None;
     stt_Temperature := None; stt_HallucinationSilenceThreshold := Some 2 |}.

Definition llm0 : LLMSettings :=
  {| llm_Model := "gemma2:9b"; llm_Seed := Some 42;
     llm_SystemPrompt := Some "You are a helpful operator."%string;
     llm_Mirostat := None; llm_MirostatEta := None; llm_MirostatTau := None;
     llm_NumCtx := Some 4096; llm_RepeatLastN := None; llm_RepeatPenalty := None;
     llm_Temperature := None; llm_TfsZ := None; llm_NumPredict := Some 128;
     llm_TopK := None; llm_TopP := None; llm_MinP := None |}.

Definition speech : list byte := [x01; x00; x02; x00].
Definition quiet : list byte := [x00; x00; x00; x00].
Definition short : list byte := [x01; x00].

Definition start : session unit World := Handle_start 7 "call-1" tt stt0 llm0 [].

Definition handle (reply : string) :=
  handleInputAudio (sendFloat32ArrayToServer reply) API_SendMessage
                   LLM_Chat websocketSendReceive.

Definition iter (reply : string) :=
  Handle_iter vad_Process (sendFloat32ArrayToServer reply) API_SendMessage
              LLM_Chat websocketSendReceive.

Definition loop (reply : string) :=
  Handle_loop vad_Process (sendFloat32ArrayToServer reply) API_SendMessage
              LLM_Chat websocketSendReceive.

End Toy.

(** ** The playback relay: [websocketSendReceive] and [AudioWriter]
       (main.go, 408-496)

    The package-level variables [wsMutex] and [wsCancel] are shared by all
    sessions of the process.  Each call of [websocketSendReceive] creates a
    context, installs its cancel function in [wsCancel] and starts a
    goroutine.  The goroutines run interleaved: a transition below is what
    one goroutine does between two points where another one can run.
    Critical sections of [wsMutex] are single transitions.  A context is
    named by the index of the relay it was created for. *)

Module Relay.

(** What [wsConn.ReadMessage] returns. *)
Inductive ws_message :=
| TextEndOfAudio              (* text, JSON with "type": "end_of_audio" *)
| TextOther                   (* any other text message *)
| BinaryMessage (p : list byte)
| Unsupported                 (* another message type *)
| ReadError.

(** Where a relay goroutine stands. *)
Inductive pc :=
| AtDial                      (* before websocket.DefaultDialer.Dial *)
| AtWriteJSON                 (* before wsConn.WriteJSON(data) *)
| AtSelect                    (* at the select on ctx.Done() *)
| InReadMessage               (* default case taken: inside wsConn.ReadMessage *)
| Exited.                     (* returned; the deferred function has run *)

Record relay := {
  r_conn : nat;                     (* the call connection it writes to *)
  r_pc : pc;
  r_dial_ok : bool;                 (* whether Dial will succeed *)
  r_json_ok : bool;                 (* whether WriteJSON will succeed *)
  r_stream : list ws_message        (* what the synthesis service delivers *)
}.

(** One frame written to a call connection by [AudioWriter.Write]. *)
Record frame := { f_conn : nat; f_relay : nat; f_payload : list byte }.

Record system := {
  wsCancel : option nat;            (* the context [wsCancel] cancels, or nil *)
  cancelled : list nat;             (* contexts whose Done channel is closed *)
  relays : list relay;              (* the goroutines, in creation order *)
  written : list frame              (* frames written, oldest first *)
}.

Definition init : system :=
  {| wsCancel := None; cancelled := []; relays := []; written := [] |}.

Definition is_cancelled (s : system) (ctx : nat) : bool :=
  existsb (Nat.eqb ctx) (cancelled s).

(** Lines 412-418 and the [go] statement: under [wsMutex], cancel the
    context held by [wsCancel] if any, create a context, store its cancel
    function, then start the goroutine. *)
Definition websocketSendReceive (c : nat) (dial_ok json_ok : bool)
    (stream : list ws_message) (s : system) : system :=
  let ctx := List.length (relays s) in
  {| wsCancel := Some ctx;
     cancelled := match wsCancel s with
                  | Some prev => prev :: cancelled s
                  | None => cancelled s
                  end;
     relays := relays s ++ [{| r_conn := c; r_pc := AtDial; r_dial_ok := dial_ok;
                               r_json_ok := json_ok; r_stream := stream |}];
     written := written s |}.

Fixpoint update (rs : list relay) (i : nat) (r : relay) : list relay :=
  match rs, i with
  | [], _ => []
  | _ :: rest, O => r :: rest
  | r0 :: rest, S i' => r0 :: update rest i' r
  end.

Definition goto (r : relay) (p : pc) (stream : list ws_message) : relay :=
  {| r_conn := r_conn r; r_pc := p; r_dial_ok := r_dial_ok r;
     r_json_ok := r_json_ok r; r_stream := stream |}.

(** The relay moves on; nothing shared changes. *)
Definition move (s : system) (i : nat) (r : relay) (p : pc)
    (stream : list ws_message) : system :=
  {| wsCancel := wsCancel s; cancelled := cancelled s;
     relays := update (relays s) i (goto r p stream); written := written s |}.

(** The goroutine returns: its deferred function sets [wsCancel = nil]. *)
Definition exit (s : system) (i : nat) (r : relay) (stream : list ws_message)
    : system :=
  {| wsCancel := None; cancelled := cancelled s;
     relays := update (relays s) i (goto r Exited stream); written := written s |}.

(** [audioWriter.Write(message)]: the writer and its mutex are created by
    this goroutine, so the lock is never contended; the frame goes to the
    connection. *)
Definition write (s : system) (i : nat) (r : relay) (p : list byte)
    (stream : list ws_message) : system :=
  {| wsCancel := wsCancel s; cancelled := cancelled s;
     relays := update (relays s) i (goto r AtSelect stream);
     written := written s ++ [{| f_conn := r_conn r; f_relay := i; f_payload := p |}] |}.

(** One transition of goroutine [i]; [None] when it cannot move (it has
    exited, or it is blocked in [ReadMessage] with nothing to read). *)
Definition step (i : nat) (s : system) : option system :=
  match nth_error (relays s) i with
  | None => None
  | Some r =>
      match r_pc r with
      | AtDial =>
          Some (if r_dial_ok r then move s i r AtWriteJSON (r_stream r)
                else exit s i r (r_stream r))
      | AtWriteJSON =>
          Some (if r_json_ok r then move s i r AtSelect (r_stream r)
                else exit s i r (r_stream r))
      | AtSelect =>
          Some (if is_cancelled s i then exit s i r (r_stream r)
                else move s i r InReadMessage (r_stream r))
      | InReadMessage =>
          match r_stream r with
          | [] => None
          | ReadError :: rest => Some (exit s i r rest)
          | TextEndOfAudio :: rest => Some (exit s i r rest)
          | TextOther :: rest => Some (move s i r AtSelect rest)
          | Unsupported :: rest => Some (move s i r AtSelect rest)
          | BinaryMessage p :: rest => Some (write s i r p rest)
          end
      | Exited => None
      end
  end.

Inductive action :=
| Start (c : nat) (dial_ok json_ok : bool) (stream : list ws_message)
| Step (i : nat).

Definition perform (a : action) (s : system) : option system :=
  match a with
  | Start c d j stream => Some (websocketSendReceive c d j stream s)
  | Step i => step i s
  end.

Fixpoint run (schedule : list action) (s : system) : option system :=
  match schedule with
  | [] => Some s
  | a :: rest =>
      match perform a s with
      | None => None
      | Some s' => run rest s'
      end
  end.

(** The relays that wrote to connection [c], in the order of their frames. *)
Definition writers (c : nat) (s : system) : list nat :=
  map f_relay (filter (fun f => Nat.eqb (f_conn f) c) (written s)).

(** *** Two schedules

    Audio chunks of the synthesis service, and the frame a relay writes. *)
Definition a1 : list byte := [x01; x00].
Definition a2 : list byte := [x02; x00].
Definition b1 : list byte := [x03; x00].

Definition frame_of (c i : nat) (p : list byte) : frame :=
  {| f_conn := c; f_relay := i; f_payload := p |}.

(** Relay 0 serves call 7 and has written [a1]; it is back in [ReadMessage]
    when the session of the same call starts relay 1, which dials, sends its
    request and relays [b1]. *)
Definition supersede_schedule : list action :=
  [ Start 7 true true [BinaryMessage a1; BinaryMessage a2; TextEndOfAudio];
    Step 0; Step 0; Step 0; Step 0;      (* dial, request, select, read and write a1 *)
    Step 0;                              (* select: not cancelled, into ReadMessage *)
    Start 7 true true [BinaryMessage b1; TextEndOfAudio];
    Step 1; Step 1; Step 1; Step 1 ].    (* dial, request, select, read and write b1 *)

(** Relay 0 serves call 7 and stands at its select when the session of call
    8 starts relay 1. *)
Definition other_call_schedule : list action :=
  [ Start 7 true true [BinaryMessage a1; BinaryMessage a2; TextEndOfAudio];
    Step 0; Step 0; Step 0; Step 0 ].    (* dial, request, select, read and write a1 *)

Definition other_call_start : action :=
  Start 8 true true [BinaryMessage b1; TextEndOfAudio].

End Relay.

(** ** [NoiseGate] (main.go, 298-316) *)

(** The conversion [byte(v)] of an unsigned integer: its low eight bits. *)
Definition byte_of_Z (z : Z) : byte :=
  match Byte.of_N (Z.to_N (z mod 256)) with
  | Some b => b
  | None => x00
  end.

(** The conversion [uint16(sample)] of an [int16]. *)
Definition uint16_of_int16 (s : Z) : Z := s mod 65536.

(** [binary.LittleEndian.PutUint16]: the two bytes written. *)
Definition LittleEndian_PutUint16 (v : Z) : byte * byte :=
  (byte_of_Z v, byte_of_Z (Z.shiftr v 8)).

(** [math.Abs] on binary64. *)
Definition math_Abs (x : Float64.t) : Float64.t := SFabs x.

(** The body of the loop on one sample:
    [if math.Abs(float64(sample)) < float64(threshold) { sample = 0 }]. *)
Definition gate_sample (sample threshold : Z) : Z :=
  if Float64.ltb (math_Abs (Float64.of_int sample)) (Float64.of_int threshold)
  then 0 else sample.

(** [output] is allocated zeroed with the length of [input]; the loop fills
    the [len(input)/2] whole samples, so a trailing odd byte stays zero. *)
Fixpoint NoiseGate (input : list byte) (threshold : Z) : list byte :=
  match input with
  | b0 :: b1 :: rest =>
      let sample := int16_of_uint16 (LittleEndian_Uint16 b0 b1) in
      let '(o0, o1) := LittleEndian_PutUint16
                         (uint16_of_int16 (gate_sample sample threshold)) in
      o0 :: o1 :: NoiseGate rest threshold
  | [_] => [x00]
  | [] => []
  end.

(** The binary64 number an integer [n] with [1 <= n <= 32768] converts to. *)
Definition canon (n : Z) : Float64.t :=
  S754_finite false (Z.to_pos (n * 2 ^ (52 - Z.log2 n))) (Z.log2 n - 52).

Definition float_same (x y : spec_float) : bool :=
  match x, y with
  | S754_zero a, S754_zero b => Bool.eqb a b
  | S754_infinity a, S754_infinity b => Bool.eqb a b
  | S754_nan, S754_nan => true
  | S754_finite a m e, S754_finite b m' e' => Bool.eqb a b && Pos.eqb m m' && Z.eqb e e'
  | _, _ => false
  end.

Definition of_int_canon (n : Z) : bool :=
  float_same (Float64.of_int n) (canon n)
  && float_same (Float64.of_int (- n)) (SFopp (canon n)).

Definition int16_count : nat := Nat.pow 2 15.

(** ** Messages the loop passes over

    Read failures other than end of stream, messages that are neither
    audio nor hangup (identity, silence, error and unknown kinds), and audio
    messages whose payload is empty or of odd length. *)
Definition ignored (r : received) : bool :=
  match r with
  | RecvEOF => false
  | RecvFail => true
  | Recv m =>
      match Kind_of m with
      | KindHangup => false
      | KindSlin => negb (audio_frame (Payload m))
      | _ => true
      end
  end.

(** The five external calls of a complete exchange, in the order
    [handleInputAudio] makes them. *)
Definition exchange (c : nat) (chatID : string) (audio : list Float32.t)
    (stt : STTSettings) (llm : LLMSettings) (transcription content : string)
    : list event :=
  let data := {| data_message := content; data_language := "ru";
                 data_speed := 1; data_await_time := 15 # 1000 |} in
  [ EvTranscribe transcribeURL audio (set_Language stt "ru");
    EvSendMessage chatID "user" transcription;
    EvLLMChat chatID chatModel UserSender transcription (llmOptions_of llm);
    EvSendMessage chatID "assistant" content;
    EvRelay websocketURI data c ].

(** The two messages on which the loop returns: end of stream and hangup. *)
Definition terminal (r : received) : bool :=
  match r with
  | RecvEOF => true
  | RecvFail => false
  | Recv m => match Kind_of m with KindHangup => true | _ => false end
  end.

(** An utterance worth the name: at least one chunk, no empty chunk. *)
Definition has_speech (buffer : list (list Float32.t)) : Prop :=
  buffer <> [] /\ Forall (fun chunk => chunk <> []) buffer.

(** A payload of 320 equal bytes. *)
Definition frame_320 (b : byte) : list byte := repeat b 320.

(** ** Counting the frames of a relay *)

Module RelayCount.

(** The number of frames relay [i] has written so far. *)
Definition frames_of (i : nat) (s : Relay.system) : nat :=
  List.length (filter (fun f => Nat.eqb (Relay.f_relay f) i) (Relay.written s)).

(** 1 when relay [i] is inside [ReadMessage], 0 otherwise. *)
Definition pending (i : nat) (s : Relay.system) : nat :=
  match nth_error (Relay.relays s) i with
  | Some r => match Relay.r_pc r with Relay.InReadMessage => 1 | _ => 0 end
  | None => 0
  end.

(** Every frame written so far went to the connection of its relay. *)
Definition own_connection (s : Relay.system) : Prop :=
  forall f, In f (Relay.written s) ->
  exists r, nth_error (Relay.relays s) (Relay.f_relay f) = Some r /\
            Relay.r_conn r = Relay.f_conn f.

(** The state a schedule leads to from [s] ([s] itself if it cannot run). *)
Definition after (schedule : list Relay.action) (s : Relay.system) : Relay.system :=
  match Relay.run schedule s with
  | Some s' => s'
  | None => s
  end.

End RelayCount.

(** ** The start of a session: [getCallID] and [Handle] up to the loop
       (main.go, 61-141) *)

(** [uuid.FromBytes] of gofrs/uuid: sixteen bytes or an error. *)
Definition uuid_FromBytes (payload : list byte) : result unit (list byte) :=
  if Nat.eqb (List.length payload) 16 then Ok payload else Err tt.

(** [getCallID], given what [audiosocket.NextMessage] returned. *)
Definition getCallID (first : received) : result unit (list byte) :=
  match first with
  | RecvEOF => Err tt
  | RecvFail => Err tt
  | Recv m =>
      match Kind_of m with
      | KindID => uuid_FromBytes (Payload m)
      | _ => Err tt
      end
  end.

(** The fields of a persisted [Message] and of a [Chat] that [Handle] reads. *)
Record ChatMessage := { msg_Role : string; msg_Content : string }.
Record Chat := { chat_Messages : list ChatMessage }.

(** The string variables whose addresses [Handle] puts in the
    [ollama.Message] values it passes to [AddMessage]: the local
    [systemRole], the system prompt behind [llmSettings.SystemPrompt], and
    the fields [Role] and [Content] of the range variable [message].  The
    module declares go 1.18, so the range variable is one variable for the
    whole loop. *)
Inductive ref := RefSystemRole | RefSystemPrompt | RefLoopRole | RefLoopContent.

(** The calls made before the loop.  [SeAddMessage] records the two
    pointers passed and what they denote at the time of the call. *)
Inductive setup_event :=
| SeGetChat (chatID : string)
| SeStartChat (chatID : string)
| SeGetSttSettings (chatID : string)
| SeGetLlmSettings (chatID : string)
| SeLLMChat (chatID model : string)
| SeDeleteAllMessages (chatID : string)
| SeAddMessage (chatID : string) (role content : ref)
               (role_now : string) (content_now : option string).

(** What the four variables hold: the range variable holds the message of
    the current iteration, if the loop has run at all. *)
Record store := {
  st_system_prompt : option string;
  st_message : option ChatMessage
}.

Definition deref (st : store) (r : ref) : option string :=
  match r with
  | RefSystemRole => Some "system"%string
  | RefSystemPrompt => st_system_prompt st
  | RefLoopRole => option_map msg_Role (st_message st)
  | RefLoopContent => option_map msg_Content (st_message st)
  end.

(** The history as the pointers passed to [AddMessage] denote it in a
    given store: role and content of each message added. *)
Definition history_in (st : store) (evs : list setup_event)
    : list (option string * option string) :=
  flat_map (fun e => match e with
                     | SeAddMessage _ role content _ _ => [(deref st role, deref st content)]
                     | _ => []
                     end) evs.

(** The history as it was at the time of each call. *)
Definition history_at_call (evs : list setup_event) : list (string * option string) :=
  flat_map (fun e => match e with
                     | SeAddMessage _ _ _ role content => [(role, content)]
                     | _ => []
                     end) evs.

Section Setup.

Variable VAD : Type.
Variable vad_error : Type.
Variable World : Type.
Variable service_error : Type.

(** go-webrtcvad. *)
Variable webrtcvad_New : World -> result vad_error VAD * World.
Variable vad_SetMode : VAD -> Z -> result vad_error VAD.
(** [uuid.UUID.String]. *)
Variable uuid_String : list byte -> string.
(** The persistence service (chat.go). *)
Variable API_GetChat : string -> World -> result service_error Chat * World.
Variable API_StartChat : string -> World -> result service_error unit * World.
Variable API_GetSttSettings : string -> World -> result service_error STTSettings * World.
Variable API_GetLlmSettings : string -> World -> result service_error LLMSettings * World.
(** go-ollama: whether a chat with this identifier exists, opening one, and
    the two methods of a chat that [Handle] calls. *)
Variable LLM_GetChat : string -> World -> bool.
Variable LLM_Chat_open : string -> string -> World -> result service_error unit * World.
Variable LLM_DeleteAllMessages : string -> World -> World.
Variable LLM_AddMessage : string -> ref -> ref -> World -> World.

(** How [Handle] can leave its first part: [log.Fatal] ends the process,
    [return] ends the session, a nil dereference panics, or the loop is
    entered. *)
Inductive setup_outcome :=
| Fatal
| Returned
| Panicked
| Ready (s : session VAD World) (st : store).

(** The loop [for _, message := range messages]. *)
Fixpoint seed (id : string) (messages : list ChatMessage) (current : option ChatMessage)
    (w : World) : option ChatMessage * World * list setup_event :=
  match messages with
  | [] => (current, w, [])
  | message :: rest =>
      let w1 := LLM_AddMessage id RefLoopRole RefLoopContent w in
      let '(final, w2, evs) := seed id rest (Some message) w1 in
      (final, w2,
       SeAddMessage id RefLoopRole RefLoopContent
                    (msg_Role message) (Some (msg_Content message)) :: evs)
  end.

(** From [llmChat := LLM.GetChat(ChatID)] to the loop.  [chat] is the
    pointer returned by [API.GetChat]: [None] when that call failed. *)
Definition seed_model (c : nat) (id : string) (v : VAD) (chat : option Chat)
    (stt : STTSettings) (llm : LLMSettings) (w : World) (evs : list setup_event)
    : setup_outcome * World * list setup_event :=
  let opened :=
    if LLM_GetChat id w then (Ok tt, w, evs)
    else
      let '(r, w1) := LLM_Chat_open id chatModel w in
      (r, w1, evs ++ [SeLLMChat id chatModel]) in
  match opened with
  | (Err _, w1, evs1) => (Returned, w1, evs1)
  | (Ok _, w1, evs1) =>
      if LLM_GetChat id w1 then
        let w2 := LLM_DeleteAllMessages id w1 in
        let evs2 := evs1 ++ [SeDeleteAllMessages id] in
        match chat with
        | None => (Panicked, w2, evs2)             (* messages := chat.Messages *)
        | Some ch =>
            let w3 := LLM_AddMessage id RefSystemRole RefSystemPrompt w2 in
            let evs3 := evs2 ++ [SeAddMessage id RefSystemRole RefSystemPrompt
                                              "system" (llm_SystemPrompt llm)] in
            let '(final, w4, evs4) := seed id (chat_Messages ch) None w3 in
            (Ready (Handle_start c id v stt llm w4)
                   {| st_system_prompt := llm_SystemPrompt llm; st_message := final |},
             w4, evs3 ++ evs4)
        end
      else (Panicked, w1, evs1)                    (* llmChat.DeleteAllMessages() on nil *)
  end.

(** [Handle] from its first statement to the loop; [first] is what the
    first [NextMessage] returns. *)
Definition Handle_setup (c : nat) (first : received) (w : World)
    : setup_outcome * World * list setup_event :=
  match webrtcvad_New w with
  | (Err _, w0) => (Fatal, w0, [])
  | (Ok v0, w0) =>
      match vad_SetMode v0 3 with
      | Err _ => (Fatal, w0, [])
      | Ok v =>
          match getCallID first with
          | Err _ => (Returned, w0, [])
          | Ok uuid =>
              let id := uuid_String uuid in
              let '(chat, created, w2, evs2) :=
                match API_GetChat id w0 with
                | (Ok ch, w1) => (Some ch, Ok tt, w1, [SeGetChat id])
                | (Err _, w1) =>
                    let '(r, w2) := API_StartChat id w1 in
                    (None, r, w2, [SeGetChat id; SeStartChat id])
                end in
              match created with
              | Err _ => (Returned, w2, evs2)
              | Ok _ =>
                  match API_GetSttSettings id w2 with
                  | (Err _, w3) => (Returned, w3, evs2 ++ [SeGetSttSettings id])
                  | (Ok stt, w3) =>
                      match API_GetLlmSettings id w3 with
                      | (Err _, w4) =>
                          (Returned, w4,
                           evs2 ++ [SeGetSttSettings id; SeGetLlmSettings id])
                      | (Ok llm, w4) =>
                          seed_model c id v (chat : option Chat) stt llm w4
                            (evs2 ++ [SeGetSttSettings id; SeGetLlmSettings id])
                      end
                  end
              end
          end
      end
  end.

End Setup.

(** ** A concrete start of session

    A persistence service that knows the chat when the world is [true], and
    a model side that always finds its chat. *)

Module ToySetup.

Definition World := bool.

Definition webrtcvad_New (w : World) : result unit unit * World := (Ok tt, w).
Definition vad_SetMode (v : unit) (mode : Z) : result unit unit := Ok v.
Definition uuid_String (uuid : list byte) : string := "call-1".

Definition chat0 : Chat :=
  {| chat_Messages :=
       [ {| msg_Role := "user"; msg_Content := "hello" |};
         {| msg_Role := "assistant"; msg_Content := "hi there" |};
         {| msg_Role := "user"; msg_Content := "bye" |} ] |}.

Definition API_GetChat (id : string) (w : World) : result unit Chat * World :=
  if w then (Ok chat0, w) else (Err tt, w).
Definition API_StartChat (id : string) (w : World) : result unit unit * World :=
  (Ok tt, true).
Definition API_GetSttSettings (id : string) (w : World)
    : result unit STTSettings * World := (Ok Toy.stt0, w).
Definition API_GetLlmSettings (id : string) (w : World)
    : result unit LLMSettings * World := (Ok Toy.llm0, w).
Definition LLM_GetChat (id : string) (w : World) : bool := true.
Definition LLM_Chat_open (id model : string) (w : World)
    : result unit unit * World := (Ok tt, w).
Definition LLM_DeleteAllMessages (id : string) (w : World) : World := w.
Definition LLM_AddMessage (id : string) (role content : ref) (w : World) : World := w.

Definition identity : received :=
  Recv {| Kind_of := KindID; Payload := repeat x2a 16 |}.

Definition setup :=
  Handle_setup webrtcvad_New vad_SetMode uuid_String API_GetChat API_StartChat
               API_GetSttSettings API_GetLlmSettings LLM_GetChat LLM_Chat_open
               LLM_DeleteAllMessages LLM_AddMessage.

End ToySetup.

(** ** The chat store of package [api]: [ChatStore.SendMessage]
       (api/client.go, 336-440) *)

Module Api.

Definition SenderUser : string := "user".
Definition SenderAssistant : string := "assistant".
Definition SenderSystem : string := "system".

Record Message := {
  msg_ID : Z;
  msg_ChatID : string;
  msg_Role : string;
  msg_Content : string
}.

Record OllamaMessage := { om_Role : string; om_Content : string }.

Record OllamaChatRequest := {
  req_Model : string;
  req_Messages : list OllamaMessage;
  req_Stream : bool;
  req_Options : list (string * string)
}.

Record OllamaChatResponse := { resp_Content : string }.

(** The fields of a [ChatStore] that [SendMessage] reads or writes; of the
    settings, the model and the system prompt (pointers, [None] for nil). *)
Record ChatStore := {
  CurrentChat : string;
  Messages : list Message;
  Model : option string;
  SystemPrompt : option string;
  Error : string
}.

Definition with_Error (cs : ChatStore) (e : string) : ChatStore :=
  {| CurrentChat := CurrentChat cs; Messages := Messages cs; Model := Model cs;
     SystemPrompt := SystemPrompt cs; Error := e |}.

Definition with_Message (cs : ChatStore) (m : Message) : ChatStore :=
  {| CurrentChat := CurrentChat cs; Messages := Messages cs ++ [m];
     Model := Model cs; SystemPrompt := SystemPrompt cs; Error := Error cs |}.

(** The [switch msg.Role] of the loop over [cs.Messages]. *)
Definition role_of (sender : string) : string :=
  if String.eqb sender SenderUser then "user"
  else if String.eqb sender SenderAssistant then "assistant"
  else if String.eqb sender SenderSystem then "system"
  else "system".

Definition to_ollama (m : Message) : OllamaMessage :=
  {| om_Role := role_of (msg_Role m); om_Content := msg_Content m |}.

(** Calls through the two interfaces of the store. *)
Inductive call :=
| CallSendMessage (chatID sender content : string)
| CallOllama (request : OllamaChatRequest).

(** How [SendMessage] ends: a response, an error, or a panic on the nil
    model pointer. *)
Inductive outcome :=
| Replied (response : OllamaChatResponse)
| Failed (err : string)
| Panic.

Section Store.

(** The interfaces [ChatAPI] and [OllamaAPIClient], and [strings.TrimSpace]. *)
Variable World : Type.
Variable ChatAPI_SendMessage :
  string -> string -> string -> World -> result string Message * World.
Variable OllamaAPI_Chat :
  OllamaChatRequest -> World -> result string OllamaChatResponse * World.
Variable TrimSpace : string -> string.

Definition SendMessage (cs : ChatStore) (content : string) (w : World)
    : outcome * ChatStore * World * list call :=
  if String.eqb (TrimSpace (CurrentChat cs)) "" || String.eqb (TrimSpace content) ""
  then (Failed "current chat ID or content is empty", cs, w, [])
  else
    let ev1 := [CallSendMessage (CurrentChat cs) SenderUser content] in
    match ChatAPI_SendMessage (CurrentChat cs) SenderUser content w with
    | (Err e, w1) => (Failed e, with_Error cs e, w1, ev1)
    | (Ok userMsg, w1) =>
        let cs1 := with_Message cs userMsg in
        let systemPrompt := match SystemPrompt cs1 with
                            | Some p => p
                            | None => EmptyString
                            end in
        let ollamaMessages :=
          {| om_Role := "system"; om_Content := systemPrompt |}
          :: map to_ollama (Messages cs1) in
        match Model cs1 with
        | None => (Panic, cs1, w1, ev1)                 (* *llmSettings.Model *)
        | Some model =>
            let ollamaRequest :=
              {| req_Model := model; req_Messages := ollamaMessages;
                 req_Stream := false; req_Options := [("model"%string, model)] |} in
            let ev2 := ev1 ++ [CallOllama ollamaRequest] in
            match OllamaAPI_Chat ollamaRequest w1 with
            | (Err e, w2) => (Failed e, with_Error cs1 e, w2, ev2)
            | (Ok response, w2) =>
                let assistantContent := TrimSpace (resp_Content response) in
                if String.eqb assistantContent "" then
                  (Failed "received empty response from Ollama API",
                   with_Error cs1 "received empty response from Ollama API", w2, ev2)
                else
                  let ev3 := ev2 ++ [CallSendMessage (CurrentChat cs1) SenderAssistant
                                                     assistantContent] in
                  match ChatAPI_SendMessage (CurrentChat cs1) SenderAssistant
                                            assistantContent w2 with
                  | (Err e, w3) => (Failed e, with_Error cs1 e, w3, ev3)
                  | (Ok assistantMsg, w3) =>
                      (Replied response, with_Message cs1 assistantMsg, w3, ev3)
                  end
            end
        end
    end.

End Store.

(** A backend that stores what it is sent and a model that answers
    " pong ", with a trimming of ASCII spaces at both ends. *)
Fixpoint drop_spaces (s : string) : string :=
  match s with
  | String " "%char rest => drop_spaces rest
  | _ => s
  end.

Fixpoint reverse (s acc : string) : string :=
  match s with
  | EmptyString => acc
  | String ch rest => reverse rest (String ch acc)
  end.

Definition trim (s : string) : string :=
  reverse (drop_spaces (reverse (drop_spaces s) EmptyString)) EmptyString.

Definition toy_send (chatID sender content : string) (w : nat)
    : result string Message * nat :=
  (Ok {| msg_ID := Z.of_nat w; msg_ChatID := chatID; msg_Role := sender;
         msg_Content := content |}, S w).

Definition toy_chat (request : OllamaChatRequest) (w : nat)
    : result string OllamaChatResponse * nat :=
  (Ok {| resp_Content := " pong " |}, w).

Definition store0 : ChatStore :=
  {| CurrentChat := "chat-1";
     Messages := [ {| msg_ID := 1; msg_ChatID := "chat-1"; msg_Role := "tool";
                      msg_Content := "earlier" |} ];
     Model := Some "gemma2:9b"%string; SystemPrompt := None; Error := "" |}.

End Api.

(** * Properties *)

Unset Implicit Arguments.
Local Set Warnings "-notation-for-abbreviation".

(** ** Facts about bytes and samples *)

Lemma zrange_forallb (P : Z -> bool) (n : nat) :
  forall start, forallb P (zrange start n) = true ->
  forall z, start <= z < start + Z.of_nat n -> P z = true.
Proof.
  induction n as [|n IH]; intros start Hall z Hz.
  - simpl in Hz. lia.
  - cbn [zrange forallb] in Hall. apply andb_true_iff in Hall as [Hhd Htl].
    destruct (Z.eq_dec z start) as [->|Hne]; [exact Hhd|].
    apply (IH (start + 1)); [exact Htl|lia].
Qed.

Lemma byteZ_range (b : byte) : 0 <= byteZ b < 256.
Proof.
  unfold byteZ. pose proof (Byte.to_N_bounded b) as Hb. lia.
Qed.

Lemma log2_below_16 (a : Z) : 0 <= a < 65536 -> Z.log2 a < 16.
Proof.
  intros [Hlo Hhi]. destruct (Z.eq_dec a 0) as [->|Hnz]; [reflexivity|].
  apply Z.log2_lt_pow2; lia.
Qed.

Lemma LittleEndian_Uint16_range (b0 b1 : byte) :
  0 <= LittleEndian_Uint16 b0 b1 < 65536.
Proof.
  unfold LittleEndian_Uint16.
  pose proof (byteZ_range b0) as H0. pose proof (byteZ_range b1) as H1.
  assert (Hs : 0 <= Z.shiftl (byteZ b1) 8 < 65536)
    by (rewrite Z.shiftl_mul_pow2 by lia; change (2 ^ 8) with 256; lia).
  assert (Hnn : 0 <= Z.lor (byteZ b0) (Z.shiftl (byteZ b1) 8))
    by (apply Z.lor_nonneg; lia).
  split; [exact Hnn|].
  destruct (Z.eq_dec (Z.lor (byteZ b0) (Z.shiftl (byteZ b1) 8)) 0) as [->|Hnz]; [lia|].
  change 65536 with (2 ^ 16). apply Z.log2_lt_pow2; [lia|].
  rewrite Z.log2_lor by lia.
  apply Z.max_lub_lt; apply log2_below_16; lia.
Qed.

Lemma scale_exact_all : forallb scale_exact (zrange 0 uint16_count) = true.
Proof. vm_compute. reflexivity. Qed.

Lemma scale_sample_exact (b0 b1 : byte) :
  let s := int16_of_uint16 (LittleEndian_Uint16 b0 b1) in
  is_finite (scale_sample s) = true /\
  (float_value (scale_sample s) == inject_Z s / 32768)%Q.
Proof.
  intros s.
  assert (H : scale_exact (LittleEndian_Uint16 b0 b1) = true).
  { apply (zrange_forallb scale_exact uint16_count 0 scale_exact_all).
    pose proof (LittleEndian_Uint16_range b0 b1).
    unfold uint16_count. rewrite Nat2Z.inj_pow. simpl Z.of_nat.
    change (2 ^ 16) with 65536. lia. }
  unfold scale_exact in H. apply andb_true_iff in H as [Hf Hq].
  split; [exact Hf|]. apply Qeq_bool_iff. exact Hq.
Qed.

Lemma sample_at_cons2 (b0 b1 : byte) (rest : list byte) (i : nat) :
  sample_at (b0 :: b1 :: rest) (S i) = sample_at rest i.
Proof.
  unfold sample_at.
  replace (2 * S i)%nat with (S (S (2 * i))) by lia.
  replace (S (S (2 * i)) + 1)%nat with (S (S (2 * i + 1))) by lia.
  reflexivity.
Qed.

Lemma read_samples_spec (n : nat) :
  forall buf, List.length buf = (2 * n)%nat ->
  read_samples n buf = Ok (map (fun i => scale_sample (sample_at buf i)) (seq 0 n)).
Proof.
  induction n as [|n IH]; intros buf Hlen.
  - reflexivity.
  - destruct buf as [|b0 [|b1 rest]]; simpl in Hlen; try lia.
    cbn [read_samples binary_Read_int16].
    rewrite (IH rest) by lia.
    cbn [seq map]. f_equal. f_equal.
    rewrite <- seq_shift, map_map.
    apply map_ext. intros i. now rewrite sample_at_cons2.
Qed.

Lemma sample_at_in_bytes (pcmData : list byte) (i : nat) :
  exists b0 b1, sample_at pcmData i = int16_of_uint16 (LittleEndian_Uint16 b0 b1).
Proof. unfold sample_at. eauto. Qed.

Lemma even_length_passes (pcmData : list byte) (n : nat) :
  List.length pcmData = (2 * n)%nat ->
  pcmToFloat32Array pcmData = read_samples n pcmData.
Proof.
  intros Hlen. unfold pcmToFloat32Array. rewrite Hlen.
  replace (Nat.modulo (2 * n) 2) with 0%nat
    by (symmetry; rewrite Nat.mul_comm; apply Nat.Div0.mod_mul).
  cbn [Nat.eqb negb].
  replace (Nat.div (2 * n) 2) with n
    by (symmetry; rewrite Nat.mul_comm; apply Nat.div_mul; discriminate).
  reflexivity.
Qed.

(** C6. An odd-length input is refused with the length error; an input of
    even length [2n] is converted to exactly [n] samples, the [i]-th being
    the binary32 quotient of the [i]-th little-endian int16 sample by
    32768.0, a finite number whose value is exactly [sample / 32768]. *)
Theorem pcmToFloat32Array_spec (pcmData : list byte) :
  (Nat.odd (List.length pcmData) = true ->
   pcmToFloat32Array pcmData = Err ErrOddLength) /\
  (forall n : nat, List.length pcmData = (2 * n)%nat ->
   exists out,
     pcmToFloat32Array pcmData = Ok out /\
     List.length out = n /\
     forall i, (i < n)%nat ->
       exists f, nth_error out i = Some f /\
                 f = scale_sample (sample_at pcmData i) /\
                 is_finite f = true /\
                 (float_value f == inject_Z (sample_at pcmData i) / 32768)%Q).
Proof.
  split.
  - intros Hodd. unfold pcmToFloat32Array.
    rewrite <- Nat.bit0_mod, Nat.bit0_odd, Hodd. reflexivity.
  - intros n Hlen.
    exists (map (fun i => scale_sample (sample_at pcmData i)) (seq 0 n)).
    split; [rewrite (@even_length_passes pcmData n Hlen); now apply read_samples_spec|].
    split; [now rewrite length_map, length_seq|].
    intros i Hi. exists (scale_sample (sample_at pcmData i)).
    split.
    + rewrite nth_error_map, nth_error_seq.
      destruct (Nat.ltb_spec i n); [reflexivity|lia].
    + split; [reflexivity|].
      destruct (sample_at_in_bytes pcmData i) as (b0 & b1 & ->).
      apply scale_sample_exact.
Qed.

Lemma pcmToFloat32Array_spec_witness :
  pcmToFloat32Array [x01; x00; xff] = Err ErrOddLength /\
  exists out,
    pcmToFloat32Array [x00; x40; xff; xff] = Ok out /\
    List.length out = 2%nat /\
    forall i, (i < 2)%nat ->
      exists f, nth_error out i = Some f /\
                f = scale_sample (sample_at [x00; x40; xff; xff] i) /\
                is_finite f = true /\
                (float_value f
                 == inject_Z (sample_at [x00; x40; xff; xff] i) / 32768)%Q.
Proof.
  split.
  - apply (proj1 (pcmToFloat32Array_spec [x01; x00; xff])). reflexivity.
  - apply (proj2 (pcmToFloat32Array_spec [x00; x40; xff; xff]) 2%nat). reflexivity.
Defined.

(** ** Lists *)

Lemma app_split_length {A : Type} (a a' b b' : list A) :
  List.length a = List.length a' -> a ++ b = a' ++ b' -> a = a' /\ b = b'.
Proof.
  revert a'. induction a as [|x a IH]; intros [|x' a'] Hlen Heq;
    cbn in Hlen; try discriminate.
  - auto.
  - cbn [app] in Heq. injection Heq as -> Heq. injection Hlen as Hlen.
    destruct (IH a' Hlen Heq) as [-> ->]. auto.
Qed.

(** ** The duration test on utterances of whole frames

    [utterance_of k] holds [160 * k] samples.  The test [length < 0.40]
    succeeds exactly below 40 frames, that is below 6400 samples. *)

Lemma too_short_by_frames :
  forallb (fun k => Bool.eqb (too_short (utterance_of k)) (k <? 40)%nat) (seq 0 60)
  = true.
Proof. vm_compute. reflexivity. Qed.

Lemma too_short_below_40 (k : nat) :
  (k < 40)%nat -> too_short (utterance_of k) = true.
Proof.
  intros Hk. pose proof too_short_by_frames as Hall.
  rewrite forallb_forall in Hall.
  assert (Hin : In k (seq 0 60)) by (apply in_seq; lia).
  apply Hall in Hin. apply Bool.eqb_prop in Hin. rewrite Hin.
  now apply Nat.ltb_lt.
Qed.

(** ** The gate and the denylist of [handleInputAudio] *)

Lemma is_excluded_In (transcription : string) (words : list string) :
  is_excluded transcription words = true <-> In transcription words.
Proof.
  induction words as [|word rest IH]; cbn [is_excluded In].
  - split; [discriminate|tauto].
  - destruct (String.eqb_spec transcription word) as [->|Hne].
    + split; auto.
    + rewrite IH. split; [auto|]. intros [Heq|Hin]; [congruence|exact Hin].
Qed.

Lemma pcm_of_audio_frame (p : list byte) :
  audio_frame p = true -> pcmToFloat32Array p = Ok (pcm_floats p).
Proof.
  unfold audio_frame. intros H. apply andb_true_iff in H as [_ Heven].
  apply Nat.even_spec in Heven as [n Hn].
  rewrite (even_length_passes p n Hn). unfold pcm_floats. rewrite Hn.
  replace (Nat.div (2 * n) 2) with n
    by (symmetry; rewrite Nat.mul_comm; apply Nat.div_mul; discriminate).
  now apply read_samples_spec.
Qed.

Lemma audio_frame_nonempty (p : list byte) :
  audio_frame p = true ->
  (ContentLength {| Kind_of := KindSlin; Payload := p |} <? 1) = false.
Proof.
  unfold audio_frame, ContentLength. cbn [Payload].
  intros H. apply andb_true_iff in H as [Hne _].
  destruct p; [discriminate|]. cbn [List.length]. apply Z.ltb_ge. lia.
Qed.

(** ** Durations depend on chunk lengths only *)

Lemma totalSamples_lengths (b1 b2 : list (list Float32.t)) :
  map (@List.length Float32.t) b1 = map (@List.length Float32.t) b2 ->
  totalSamples b1 = totalSamples b2.
Proof.
  unfold totalSamples. generalize 0 as total. revert b2.
  induction b1 as [|c1 b1 IH]; intros [|c2 b2] total Hmap; cbn in Hmap;
    try discriminate; [reflexivity|].
  injection Hmap as Hlen Hmap. cbn [fold_left]. rewrite Hlen. now apply IH.
Qed.

Lemma too_short_lengths (b1 b2 : list (list Float32.t)) :
  map (@List.length Float32.t) b1 = map (@List.length Float32.t) b2 ->
  too_short b1 = too_short b2.
Proof.
  intros H. unfold too_short, calculateAudioLength.
  now rewrite (totalSamples_lengths b1 b2 H).
Qed.

Lemma frames_like_utterance (frames : list (list byte)) :
  Forall (fun p => List.length p = 320%nat) frames ->
  map (@List.length Float32.t) (map pcm_floats frames)
  = map (@List.length Float32.t) (utterance_of (List.length frames)).
Proof.
  induction 1 as [|p frames Hp _ IH]; [reflexivity|].
  cbn [map List.length utterance_of repeat]. f_equal; [|exact IH].
  unfold pcm_floats, chunk. rewrite length_map, length_seq, repeat_length, Hp.
  reflexivity.
Qed.

Lemma frame_320_is_audio (p : list byte) :
  List.length p = 320%nat -> audio_frame p = true.
Proof. unfold audio_frame. now intros ->. Qed.

Lemma pcm_floats_nonempty (p : list byte) (floats : list Float32.t) :
  p <> [] -> pcmToFloat32Array p = Ok floats -> floats <> [].
Proof.
  intros Hne H.
  destruct p as [|b0 [|b1 p]]; [congruence|discriminate|].
  unfold pcmToFloat32Array in H. destruct (negb _); [discriminate|].
  cbn [List.length] in H.
  change (Nat.div (S (S (List.length p))) 2)
    with (Nat.div (1 * 2 + List.length p) 2) in H.
  rewrite Nat.div_add_l in H by discriminate.
  cbn [Nat.add read_samples binary_Read_int16] in H.
  destruct (read_samples _ p); [|discriminate].
  injection H as <-. discriminate.
Qed.

Section SessionFacts.

Variable VAD : Type.
Variable vad_error : Type.
Variable vad_Process : VAD -> Z -> list byte -> result vad_error bool * VAD.
Variable World : Type.
Variable service_error : Type.
Variable sendFloat32ArrayToServer :
  string -> list Float32.t -> STTSettings -> World -> result service_error string * World.
Variable API_SendMessage :
  string -> string -> string -> World -> result service_error unit * World.
Variable LLM_Chat :
  string -> string -> string -> string -> Options -> World ->
  result service_error string * World.
Variable websocketSendReceive : string -> relay_data -> nat -> World -> World.

Local Notation utter :=
  (handleInputAudio sendFloat32ArrayToServer API_SendMessage LLM_Chat
                    websocketSendReceive).
Local Notation close :=
  (process_sentence (VAD := VAD) sendFloat32ArrayToServer API_SendMessage LLM_Chat
                    websocketSendReceive).
Local Notation on_slin :=
  (handle_slin vad_Process sendFloat32ArrayToServer API_SendMessage LLM_Chat
               websocketSendReceive).
Local Notation iter :=
  (Handle_iter vad_Process sendFloat32ArrayToServer API_SendMessage LLM_Chat
               websocketSendReceive).
Local Notation loop :=
  (Handle_loop vad_Process sendFloat32ArrayToServer API_SendMessage LLM_Chat
               websocketSendReceive).
Local Notation verdicts := (classify vad_Process).
Local Notation detector_after := (vad_after vad_Process).

(** C7. When the transcription service answers with a denylisted caption,
    the only external call of [handleInputAudio] is the transcription
    request: nothing is sent to the chat log, the model is not called and no
    relay is started; the world is as the transcriber left it. *)
Theorem denylisted_transcript_stops (c : nat) (buffer : list (list Float32.t))
    (chatID : string) (stt : STTSettings) (llm : LLMSettings) (w w1 : World)
    (transcription : string) :
  Float64.ltb (calculateAudioLength buffer 16000) const_0_40 = false ->
  sendFloat32ArrayToServer transcribeURL (List.concat buffer)
                           (set_Language stt "ru") w = (Ok transcription, w1) ->
  In transcription excludedWords ->
  utter c buffer chatID stt llm w
  = (w1, [EvTranscribe transcribeURL (List.concat buffer) (set_Language stt "ru")])
  /\ filter is_downstream (snd (utter c buffer chatID stt llm w)) = [].
Proof.
  intros Hgate Hstt Hin.
  assert (Hrun : utter c buffer chatID stt llm w
                 = (w1, [EvTranscribe transcribeURL (List.concat buffer)
                                      (set_Language stt "ru")])).
  { unfold handleInputAudio. rewrite Hgate, Hstt.
    apply is_excluded_In in Hin. rewrite Hin. reflexivity. }
  split; [exact Hrun|]. rewrite Hrun. reflexivity.
Qed.

(** C10. An audio message with an empty payload changes nothing: the
    detector, the buffer, the silence counter, the world and the history of
    calls are as before, and the loop goes on with the next message. *)
Theorem empty_audio_frame_skipped (s : session VAD World) (rest : list received) :
  iter s (slin []) = (Continue, s) /\
  loop s (slin [] :: rest) = loop s rest.
Proof. split; reflexivity. Qed.

(** C8. A hangup message ends the loop where it stands: the session is left
    exactly as the messages before the hangup left it, so a buffer that was
    being accumulated is never passed to [handleInputAudio], and what follows
    the hangup is not read. *)
Theorem hangup_ends_session (s : session VAD World) (before after : list received)
    (payload : list byte) :
  iter s (hangup payload) = (Return, s) /\
  loop s (before ++ hangup payload :: after) = (Return, snd (loop s before)) /\
  calls (snd (loop s (before ++ hangup payload :: after))) = calls (snd (loop s before)) /\
  trace (snd (loop s (before ++ hangup payload :: after))) = trace (snd (loop s before)).
Proof.
  assert (Hloop : forall pre st,
             loop st (pre ++ hangup payload :: after) = (Return, snd (loop st pre))).
  { induction pre as [|r pre IH]; intros st.
    - reflexivity.
    - cbn [app Handle_loop]. destruct (iter st r) as [[|] st'].
      + apply IH.
      + reflexivity. }
  split; [reflexivity|]. rewrite Hloop. cbn [snd]. auto.
Qed.

(** *** One audio message, by verdict of the detector *)

Lemma iter_slin (s : session VAD World) (p : list byte) :
  audio_frame p = true ->
  iter s (slin p) = (Continue, on_slin s p).
Proof.
  intros Hp. unfold Handle_iter, slin. cbn [Kind_of Payload].
  now rewrite (audio_frame_nonempty p Hp).
Qed.

Lemma on_slin_failure (s : session VAD World) (p : list byte) (e : vad_error) (v : VAD) :
  audio_frame p = true ->
  vad_Process (vad s) rate p = (Err e, v) ->
  on_slin s p = with_vad s v.
Proof.
  intros Hp Hv. unfold handle_slin.
  now rewrite (pcm_of_audio_frame p Hp), Hv.
Qed.

Lemma on_slin_speech (s : session VAD World) (p : list byte) (v : VAD) :
  audio_frame p = true ->
  vad_Process (vad s) rate p = (Ok true, v) ->
  on_slin s p = with_segment (with_vad s v) (inputAudioBuffer s ++ [pcm_floats p]) 0.
Proof.
  intros Hp Hv. unfold handle_slin.
  now rewrite (pcm_of_audio_frame p Hp), Hv.
Qed.

Lemma on_slin_silence (s : session VAD World) (p : list byte) (v : VAD) :
  audio_frame p = true ->
  vad_Process (vad s) rate p = (Ok false, v) ->
  on_slin s p =
  let s1 := with_segment (with_vad s v) (inputAudioBuffer s)
                         (wrap64 (silenceCount s + 1)) in
  if silenceCount s1 >? silenceThreshold then
    if 0 <? Z.of_nat (List.length (inputAudioBuffer s1)) then close s1 else s1
  else s1.
Proof.
  intros Hp Hv. unfold handle_slin.
  now rewrite (pcm_of_audio_frame p Hp), Hv.
Qed.

(** C5 (as the code has it). A frame on which the detector fails is
    skipped: apart from the detector's own state the session is unchanged
    (the frame is not appended, the silence counter is not incremented, no
    utterance is closed) and the loop goes on. *)
Theorem vad_failure_skips_frame (s : session VAD World) (p : list byte)
    (e : vad_error) (v : VAD) :
  audio_frame p = true ->
  vad_Process (vad s) rate p = (Err e, v) ->
  iter s (slin p) = (Continue, with_vad s v) /\
  inputAudioBuffer (snd (iter s (slin p))) = inputAudioBuffer s /\
  silenceCount (snd (iter s (slin p))) = silenceCount s /\
  calls (snd (iter s (slin p))) = calls s /\
  trace (snd (iter s (slin p))) = trace s.
Proof.
  intros Hp Hv.
  rewrite (iter_slin s p Hp), (on_slin_failure s p e v Hp Hv).
  repeat split.
Qed.

(** *** Runs of speech and of silence *)

Lemma wrap64_small (z : Z) : - 2 ^ 63 <= z < 2 ^ 63 -> wrap64 z = z.
Proof.
  intros Hz. unfold wrap64. rewrite Z.mod_small; lia.
Qed.

Lemma loop_app (s : session VAD World) (a b : list received) :
  loop s (a ++ b) =
  match loop s a with
  | (Return, s') => (Return, s')
  | (Continue, s') => loop s' b
  end.
Proof.
  revert s. induction a as [|r a IH]; intros s.
  - reflexivity.
  - cbn [app Handle_loop]. destruct (iter s r) as [[|] s']; [apply IH|reflexivity].
Qed.

Lemma verdicts_app (v : VAD) (a b : list (list byte)) :
  verdicts v (a ++ b) = verdicts v a ++ verdicts (detector_after v a) b.
Proof.
  revert v. induction a as [|p a IH]; intros v; [reflexivity|].
  cbn [app classify vad_after]. now rewrite IH.
Qed.

Lemma detector_after_app (v : VAD) (a b : list (list byte)) :
  detector_after v (a ++ b) = detector_after (detector_after v a) b.
Proof.
  revert v. induction a as [|p a IH]; intros v; [reflexivity|].
  cbn [app vad_after]. now rewrite IH.
Qed.

Lemma verdicts_length (v : VAD) (a : list (list byte)) :
  List.length (verdicts v a) = List.length a.
Proof.
  revert v. induction a as [|p a IH]; intros v; [reflexivity|].
  cbn [classify List.length]. now rewrite IH.
Qed.

Lemma close_fields (s : session VAD World) :
  vad (close s) = vad s /\
  inputAudioBuffer (close s) = [] /\
  silenceCount (close s) = silenceCount s /\
  calls (close s) = calls s ++ [{| call_buffer := inputAudioBuffer s;
                                   call_chatID := ChatID s;
                                   call_stt := sttSettings s;
                                   call_llm := llmSettings s |}].
Proof.
  unfold process_sentence.
  destruct (utter (conn s) (inputAudioBuffer s) (ChatID s) (sttSettings s)
                  (llmSettings s) (world s)) as [w' evs].
  repeat split.
Qed.

(** Speech frames are appended in order and reset the counter. *)
Lemma speech_run (ps : list (list byte)) :
  forall s : session VAD World,
  Forall (fun p => audio_frame p = true) ps ->
  verdicts (vad s) ps = repeat (Ok true) (List.length ps) ->
  loop s (map slin ps) =
  (Continue,
   with_segment (with_vad s (detector_after (vad s) ps))
                (inputAudioBuffer s ++ map pcm_floats ps)
                (match ps with [] => silenceCount s | _ => 0 end)).
Proof.
  induction ps as [|p ps IH]; intros s Hok Hv.
  - cbn. destruct s. unfold with_segment, with_vad. cbn. now rewrite app_nil_r.
  - inversion Hok as [|? ? Hp Hps]; subst.
    cbn [classify List.length repeat] in Hv. injection Hv as Hhd Htl.
    assert (Hproc : vad_Process (vad s) rate p
                    = (Ok true, snd (vad_Process (vad s) rate p)))
      by (rewrite <- Hhd; apply surjective_pairing).
    cbn [map Handle_loop]. rewrite (iter_slin s p Hp).
    rewrite (on_slin_speech s p _ Hp Hproc).
    rewrite IH; [|exact Hps|exact Htl].
    unfold with_segment, with_vad. cbn.
    rewrite <- app_assoc. cbn [app].
    destruct ps; reflexivity.
Qed.

(** Silence frames below the threshold only count. *)
Lemma silence_run (qs : list (list byte)) :
  forall s : session VAD World,
  Forall (fun p => audio_frame p = true) qs ->
  verdicts (vad s) qs = repeat (Ok false) (List.length qs) ->
  0 <= silenceCount s ->
  silenceCount s + Z.of_nat (List.length qs) <= silenceThreshold ->
  loop s (map slin qs) =
  (Continue,
   with_segment (with_vad s (detector_after (vad s) qs))
                (inputAudioBuffer s)
                (silenceCount s + Z.of_nat (List.length qs))).
Proof.
  induction qs as [|p qs IH]; intros s Hok Hv Hlo Hhi; unfold silenceThreshold in Hhi.
  - cbn. destruct s. unfold with_segment, with_vad. cbn. now rewrite Z.add_0_r.
  - inversion Hok as [|? ? Hp Hps]; subst.
    cbn [classify List.length repeat] in Hv. injection Hv as Hhd Htl.
    assert (Hproc : vad_Process (vad s) rate p
                    = (Ok false, snd (vad_Process (vad s) rate p)))
      by (rewrite <- Hhd; apply surjective_pairing).
    cbn [List.length] in Hhi.
    cbn [map Handle_loop]. rewrite (iter_slin s p Hp).
    rewrite (on_slin_silence s p _ Hp Hproc).
    cbv zeta. cbn [silenceCount with_segment with_vad].
    rewrite wrap64_small by lia.
    replace (silenceCount s + 1 >? silenceThreshold) with false
      by (symmetry; unfold silenceThreshold; rewrite Z.gtb_ltb; apply Z.ltb_ge; lia).
    rewrite IH;
      [ | exact Hps | exact Htl
        | cbn [silenceCount with_segment with_vad]; lia
        | cbn [silenceCount with_segment with_vad]; unfold silenceThreshold; lia ].
    unfold with_segment, with_vad. cbn.
    f_equal. f_equal. cbn [List.length]. lia.
Qed.

Lemma silence_split (v : VAD) (a b : list (list byte)) :
  verdicts v (a ++ b) = repeat (Ok false) (List.length (a ++ b)) ->
  verdicts v a = repeat (Ok false) (List.length a) /\
  verdicts (detector_after v a) b = repeat (Ok false) (List.length b).
Proof.
  rewrite verdicts_app, length_app, repeat_app. intros H.
  apply app_split_length in H; [exact H|].
  now rewrite verdicts_length, repeat_length.
Qed.

Lemma closing_step (s : session VAD World) (p : list byte) (v : VAD) :
  audio_frame p = true ->
  vad_Process (vad s) rate p = (Ok false, v) ->
  silenceCount s = silenceThreshold ->
  inputAudioBuffer s <> [] ->
  iter s (slin p) =
  (Continue, close (with_segment (with_vad s v) (inputAudioBuffer s) 6)).
Proof.
  intros Hp Hv Hc Hb.
  rewrite (iter_slin s p Hp), (on_slin_silence s p v Hp Hv).
  cbv zeta. cbn [silenceCount inputAudioBuffer with_segment with_vad].
  rewrite Hc. unfold silenceThreshold.
  rewrite wrap64_small by lia. cbn [Z.add Pos.add Pos.succ Z.gtb Z.compare Pos.compare Pos.compare_cont].
  destruct (inputAudioBuffer s) as [|b0 bs]; [congruence|reflexivity].
Qed.

(** The session after the speech frames and the first [k <= 5] silence
    frames: nothing closed, the speech buffered, [k] counted. *)
Lemma before_sixth_silence (s : session VAD World) (speech quiet : list (list byte)) :
  inputAudioBuffer s = [] ->
  speech <> [] ->
  (List.length quiet <= 5)%nat ->
  Forall (fun p => audio_frame p = true) speech ->
  Forall (fun p => audio_frame p = true) quiet ->
  verdicts (vad s) speech = repeat (Ok true) (List.length speech) ->
  verdicts (detector_after (vad s) speech) quiet
    = repeat (Ok false) (List.length quiet) ->
  loop s (map slin (speech ++ quiet)) =
  (Continue,
   with_segment (with_vad s (detector_after (vad s) (speech ++ quiet)))
                (map pcm_floats speech) (Z.of_nat (List.length quiet))).
Proof.
  intros Hb Hne Hlen Hs Hq Hvs Hvq.
  rewrite map_app, loop_app, (speech_run speech s Hs Hvs).
  rewrite silence_run;
    [ | exact Hq | exact Hvq
      | destruct speech; [congruence|cbn; lia]
      | destruct speech; [congruence|cbn; unfold silenceThreshold; lia] ].
  rewrite detector_after_app, Hb.
  destruct speech; [congruence|]. reflexivity.
Qed.

(** C1 (as the code has it). From a session whose buffer is empty, let
    one or more speech frames be followed by six silence frames and one more
    speech frame.  After the speech frames and any [k <= 5] of the silence
    frames no utterance has been closed: the speech is buffered and the
    counter is [k].  The sixth silence frame closes exactly one utterance,
    made of the converted speech frames in order (no silence frame in it),
    and empties the buffer.  The next speech frame starts a new buffer. *)
Theorem utterance_closed_on_sixth_silence
    (s : session VAD World) (speech silence : list (list byte)) (next : list byte) :
  inputAudioBuffer s = [] ->
  speech <> [] ->
  List.length silence = 6%nat ->
  Forall (fun p => audio_frame p = true) (speech ++ silence ++ [next]) ->
  verdicts (vad s) (speech ++ silence ++ [next])
  = repeat (Ok true) (List.length speech) ++ repeat (Ok false) 6 ++ [Ok true] ->
  let utterance := {| call_buffer := map pcm_floats speech;
                      call_chatID := ChatID s;
                      call_stt := sttSettings s;
                      call_llm := llmSettings s |} in
  (forall k, (k <= 5)%nat ->
     let sk := snd (loop s (map slin (speech ++ firstn k silence))) in
     calls sk = calls s /\
     inputAudioBuffer sk = map pcm_floats speech /\
     silenceCount sk = Z.of_nat k) /\
  (let s6 := snd (loop s (map slin (speech ++ silence))) in
   calls s6 = calls s ++ [utterance] /\
   inputAudioBuffer s6 = []) /\
  (let r7 := loop s (map slin (speech ++ silence ++ [next])) in
   fst r7 = Continue /\
   calls (snd r7) = calls s ++ [utterance] /\
   inputAudioBuffer (snd r7) = [pcm_floats next] /\
   silenceCount (snd r7) = 0).
Proof.
  intros Hb Hne Hlen Hok Hv utterance.
  (* the hypotheses, frame group by frame group *)
  apply Forall_app in Hok as [Hs Hok]. apply Forall_app in Hok as [Hq Hn].
  inversion Hn as [|? ? Hnext _]; subst.
  rewrite verdicts_app in Hv.
  apply app_split_length in Hv as [Hvs Hv];
    [|now rewrite verdicts_length, repeat_length].
  rewrite verdicts_app in Hv.
  apply app_split_length in Hv as [Hvq Hvn];
    [|now rewrite verdicts_length, repeat_length].
  rewrite <- Hlen in Hvq.
  set (v1 := detector_after (vad s) speech) in *.
  (* the first five silence frames and the sixth *)
  assert (Hcut : silence = firstn 5 silence ++ skipn 5 silence)
    by (symmetry; apply firstn_skipn).
  assert (Hlast : exists last, skipn 5 silence = [last]).
  { pose proof (length_skipn 5 silence) as Hl. rewrite Hlen in Hl.
    destruct (skipn 5 silence) as [|last [|? ?]]; cbn in Hl; try discriminate.
    now exists last. }
  destruct Hlast as [last Hlast]. rewrite Hlast in Hcut.
  assert (Hlen5 : List.length (firstn 5 silence) = 5%nat)
    by (rewrite length_firstn, Hlen; reflexivity).
  (* the state after the speech and five silence frames *)
  assert (Hfive : forall k, (k <= 5)%nat ->
            loop s (map slin (speech ++ firstn k silence)) =
            (Continue,
             with_segment
               (with_vad s (detector_after (vad s) (speech ++ firstn k silence)))
               (map pcm_floats speech) (Z.of_nat k))).
  { intros k Hk.
    assert (Hlk : List.length (firstn k silence) = k)
      by (rewrite length_firstn, Hlen; lia).
    pose proof (firstn_skipn k silence) as Hsplit.
    assert (Hqk : Forall (fun p => audio_frame p = true) (firstn k silence)).
    { rewrite <- Hsplit in Hq. now apply Forall_app in Hq as [Hq1 _]. }
    assert (Hvk : verdicts v1 (firstn k silence)
                  = repeat (Ok false) (List.length (firstn k silence))).
    { rewrite <- Hsplit in Hvq. now apply silence_split in Hvq as [Hv1 _]. }
    rewrite (before_sixth_silence s speech (firstn k silence) Hb Hne); try assumption.
    - now rewrite Hlk.
    - lia. }
  assert (Hsix : loop s (map slin (speech ++ silence)) =
                 (Continue,
                  close (with_segment
                           (with_vad s (detector_after (vad s) (speech ++ silence)))
                           (map pcm_floats speech) 6))).
  { rewrite Hcut at 1. rewrite app_assoc, map_app, loop_app, (Hfive 5%nat) by lia.
    cbn [map Handle_loop].
    assert (Hq6 : audio_frame last = true).
    { rewrite Hcut in Hq. apply Forall_app in Hq as [_ Hq2].
      now inversion Hq2. }
    assert (Hv6 : fst (vad_Process (detector_after (vad s) (speech ++ firstn 5 silence))
                                   rate last) = Ok false).
    { rewrite Hcut in Hvq. apply silence_split in Hvq as [_ Hv2].
      cbn in Hv2. injection Hv2 as Hv2. unfold v1 in Hv2.
      now rewrite detector_after_app. }
    rewrite (closing_step _ last
               (snd (vad_Process (detector_after (vad s) (speech ++ firstn 5 silence))
                                 rate last)) Hq6).
    - cbn [inputAudioBuffer with_segment with_vad].
      replace (detector_after (vad s) (speech ++ silence))
        with (snd (vad_Process (detector_after (vad s) (speech ++ firstn 5 silence))
                               rate last)).
      + reflexivity.
      + rewrite Hcut at 2. rewrite app_assoc, (detector_after_app _ _ [last]).
        reflexivity.
    - cbn [vad with_segment with_vad]. rewrite <- Hv6. apply surjective_pairing.
    - reflexivity.
    - cbn [inputAudioBuffer with_segment with_vad].
      destruct speech; [congruence|discriminate]. }
  split; [|split].
  - intros k Hk sk. subst sk. rewrite (Hfive k Hk). cbn. auto.
  - intros s6. subst s6. rewrite Hsix. cbn [snd].
    destruct (close_fields
                (with_segment (with_vad s (detector_after (vad s) (speech ++ silence)))
                              (map pcm_floats speech) 6)) as (_ & Hbuf & _ & Hcalls).
    split; [exact Hcalls|exact Hbuf].
  - intros r7. subst r7.
    rewrite app_assoc, map_app, loop_app, Hsix. cbn [map Handle_loop].
    destruct (close_fields
                (with_segment (with_vad s (detector_after (vad s) (speech ++ silence)))
                              (map pcm_floats speech) 6)) as (Hvad & Hbuf & _ & Hcalls).
    cbn [vad with_segment with_vad] in Hvad.
    assert (Hv7 : vad_Process
                    (vad (close (with_segment
                                   (with_vad s (detector_after (vad s) (speech ++ silence)))
                                   (map pcm_floats speech) 6))) rate next
                  = (Ok true,
                     snd (vad_Process (detector_after (vad s) (speech ++ silence))
                                      rate next))).
    { rewrite Hvad. cbn in Hvn. injection Hvn as Hvn.
      unfold v1 in Hvn. rewrite <- detector_after_app in Hvn.
      rewrite <- Hvn. apply surjective_pairing. }
    rewrite (iter_slin _ next Hnext), (on_slin_speech _ next _ Hnext Hv7).
    cbn [fst snd calls inputAudioBuffer silenceCount with_segment with_vad].
    rewrite Hbuf. auto.
Qed.

(** *** The settings are a snapshot *)

Lemma utter_requests (c : nat) (buffer : list (list Float32.t)) (chatID : string)
    (stt : STTSettings) (llm : LLMSettings) (w : World) :
  Forall (transcribes_with (set_Language stt "ru"))
         (snd (utter c buffer chatID stt llm w)).
Proof.
  unfold handleInputAudio.
  destruct (Float64.ltb _ _); [constructor|].
  destruct (sendFloat32ArrayToServer _ _ _ _) as [[transcription|e1] w1];
    [|repeat constructor].
  destruct (is_excluded _ _); [repeat constructor|].
  destruct (API_SendMessage _ _ _ w1) as [[u2|e2] w2]; [|repeat constructor].
  destruct (LLM_Chat _ _ _ _ _ w2) as [[content|e3] w3]; [|repeat constructor].
  destruct (API_SendMessage _ _ _ w3) as [[u4|e4] w4]; repeat constructor.
Qed.

Lemma settings_kept_refl (s : session VAD World) : settings_kept s s.
Proof.
  repeat split. exists [], []. rewrite !app_nil_r. repeat split; constructor.
Qed.

Lemma settings_kept_trans (s1 s2 s3 : session VAD World) :
  settings_kept s1 s2 -> settings_kept s2 s3 -> settings_kept s1 s3.
Proof.
  intros (Hs & Hl & cs & evs & Hc & Ht & Hcs & Hevs)
         (Hs' & Hl' & cs' & evs' & Hc' & Ht' & Hcs' & Hevs').
  rewrite Hs, Hl in *.
  split; [exact Hs'|]. split; [exact Hl'|].
  exists (cs ++ cs'), (evs ++ evs').
  rewrite Hc', Hc, Ht', Ht, !app_assoc.
  repeat split; apply Forall_app; auto.
Qed.

Lemma settings_kept_close (s : session VAD World) : settings_kept s (close s).
Proof.
  unfold settings_kept, process_sentence.
  pose proof (utter_requests (conn s) (inputAudioBuffer s) (ChatID s)
                             (sttSettings s) (llmSettings s) (world s)) as Hev.
  destruct (utter _ _ _ _ _ _) as [w' evs]. cbn in *.
  repeat split.
  eexists _, _. repeat split; [repeat constructor|exact Hev].
Qed.

Lemma settings_kept_segment (s : session VAD World) (v : VAD)
    (buffer : list (list Float32.t)) (count : Z) :
  settings_kept s (with_segment (with_vad s v) buffer count).
Proof.
  repeat split. exists [], []. cbn. rewrite !app_nil_r. repeat split; constructor.
Qed.

Lemma settings_kept_vad (s : session VAD World) (v : VAD) :
  settings_kept s (with_vad s v).
Proof.
  repeat split. exists [], []. cbn. rewrite !app_nil_r. repeat split; constructor.
Qed.

Lemma settings_kept_slin (s : session VAD World) (p : list byte) :
  settings_kept s (on_slin s p).
Proof.
  unfold handle_slin.
  destruct (pcmToFloat32Array p) as [floats|e]; [|apply settings_kept_refl].
  destruct (vad_Process (vad s) rate p) as [[[|]|e] v].
  - apply settings_kept_segment.
  - cbv zeta.
    destruct (_ >? _); [|apply settings_kept_segment].
    destruct (_ <? _); [|apply settings_kept_segment].
    eapply settings_kept_trans; [apply settings_kept_segment|apply settings_kept_close].
  - apply settings_kept_vad.
Qed.

Lemma settings_kept_iter (s : session VAD World) (r : received) :
  settings_kept s (snd (iter s r)).
Proof.
  destruct r as [| |m]; cbn; try apply settings_kept_refl.
  destruct (Kind_of m); cbn; try apply settings_kept_refl.
  destruct (ContentLength m <? 1); cbn;
    [apply settings_kept_refl|apply settings_kept_slin].
Qed.

(** C9. Whatever messages the session reads, the STT and LLM settings it
    holds stay the ones it started the loop with; every call of
    [handleInputAudio] is given these same settings, and every transcription
    request carries them with only the language replaced by "ru". *)
Theorem settings_snapshot_immutable (s : session VAD World) (input : list received) :
  let s' := snd (loop s input) in
  sttSettings s' = sttSettings s /\
  llmSettings s' = llmSettings s /\
  exists (cs : list call) (evs : list event),
    calls s' = calls s ++ cs /\
    trace s' = trace s ++ evs /\
    Forall (fun c => call_stt c = sttSettings s /\ call_llm c = llmSettings s) cs /\
    Forall (transcribes_with (set_Language (sttSettings s) "ru")) evs.
Proof.
  change (settings_kept s (snd (loop s input))).
  revert s. induction input as [|r input IH]; intros s.
  - apply settings_kept_refl.
  - cbn [Handle_loop]. pose proof (settings_kept_iter s r) as Hstep.
    destruct (iter s r) as [[|] s1]; cbn [snd] in *.
    + eapply settings_kept_trans; [exact Hstep|apply IH].
    + exact Hstep.
Qed.

(** *** The duration gate *)

Lemma too_short_rejected (c : nat) (buffer : list (list Float32.t)) (chatID : string)
    (stt : STTSettings) (llm : LLMSettings) (w : World) :
  too_short buffer = true -> utter c buffer chatID stt llm w = (w, []).
Proof.
  unfold too_short, handleInputAudio. now intros ->.
Qed.

Lemma long_enough_submitted (c : nat) (buffer : list (list Float32.t)) (chatID : string)
    (stt : STTSettings) (llm : LLMSettings) (w : World) :
  too_short buffer = false ->
  exists rest,
    snd (utter c buffer chatID stt llm w)
    = EvTranscribe transcribeURL (List.concat buffer) (set_Language stt "ru") :: rest.
Proof.
  unfold too_short, handleInputAudio. intros ->.
  destruct (sendFloat32ArrayToServer _ _ _ _) as [[transcription|e1] w1];
    [|eexists; reflexivity].
  destruct (is_excluded _ _); [eexists; reflexivity|].
  destruct (API_SendMessage _ _ _ w1) as [[u2|e2] w2]; [|eexists; reflexivity].
  destruct (LLM_Chat _ _ _ _ _ w2) as [[content|e3] w3]; [|eexists; reflexivity].
  destruct (API_SendMessage _ _ _ w3) as [[u4|e4] w4]; eexists; reflexivity.
Qed.

(** C4 (the code on utterances of 20 ms frames). The duration is the
    number of samples divided by 16000, not by the 8000 Hz of the stream.
    An utterance of 25 frames, 4000 samples, half a second of the call's
    audio, is measured as 0.25 s and dropped without a transcription
    request; so is every utterance shorter than 40 frames (0.8 s).  The
    utterance of 40 frames is the first to be submitted. *)
Theorem half_second_utterance_rejected (c : nat) (chatID : string)
    (stt : STTSettings) (llm : LLMSettings) (w : World) :
  totalSamples (utterance_of 25) = 4000 /\
  calculateAudioLength (utterance_of 25) 16000
  = Float64.div (Float64.of_int 1) (Float64.of_int 4) /\
  utter c (utterance_of 25) chatID stt llm w = (w, []) /\
  Forall (fun k => utter c (utterance_of k) chatID stt llm w = (w, [])) (seq 0 40) /\
  exists rest,
    snd (utter c (utterance_of 40) chatID stt llm w)
    = EvTranscribe transcribeURL (List.concat (utterance_of 40))
                   (set_Language stt "ru") :: rest.
Proof.
  split; [vm_compute; reflexivity|].
  split; [vm_compute; reflexivity|].
  split; [apply too_short_rejected, too_short_below_40; lia|].
  split.
  - apply Forall_forall. intros k Hk. apply in_seq in Hk.
    apply too_short_rejected, too_short_below_40. lia.
  - apply long_enough_submitted. vm_compute. reflexivity.
Qed.

(** *** Messages that leave the session as it is *)

Lemma odd_length_refused (p : list byte) :
  Nat.odd (List.length p) = true -> pcmToFloat32Array p = Err ErrOddLength.
Proof.
  intros Hodd. unfold pcmToFloat32Array.
  now rewrite <- Nat.bit0_mod, Nat.bit0_odd, Hodd.
Qed.

Lemma ignored_iter (s : session VAD World) (r : received) :
  ignored r = true -> iter s r = (Continue, s).
Proof.
  destruct r as [| |m]; cbn [ignored]; [discriminate|reflexivity|].
  unfold Handle_iter. destruct (Kind_of m); try discriminate; try reflexivity.
  intros H. apply negb_true_iff in H.
  destruct (ContentLength m <? 1) eqn:Hlen; [reflexivity|].
  unfold handle_slin, audio_frame, ContentLength in *.
  destruct (Payload m) as [|b p]; [discriminate|].
  cbn [List.length Nat.eqb negb andb] in H.
  rewrite odd_length_refused; [reflexivity|].
  cbn [List.length]. now rewrite <- Nat.negb_even, H.
Qed.

(** X8. Messages that are neither well-formed audio nor a hangup are
    transparent: removing them from what the session reads changes neither
    how the loop ends nor the state it ends in.  Protocol-level silence
    messages are among them, so they never count as silence frames. *)
Theorem ignored_messages_transparent (s : session VAD World) (input : list received) :
  loop s input = loop s (filter (fun r => negb (ignored r)) input).
Proof.
  revert s. induction input as [|r input IH]; intros s; [reflexivity|].
  cbn [filter]. destruct (ignored r) eqn:Hr; cbn [negb].
  - cbn [Handle_loop]. rewrite (ignored_iter s r Hr). apply IH.
  - cbn [Handle_loop]. destruct (iter s r) as [[|] s']; [apply IH|reflexivity].
Qed.

(** *** Pauses inside an utterance *)

(** X9. A pause of at most five silence frames does not split an
    utterance: after speech, the pause and more speech, nothing has been
    closed and the buffer holds both runs of speech, in order, without the
    silence frames. *)
Theorem short_pause_does_not_split
    (s : session VAD World) (speech1 pause speech2 : list (list byte)) :
  inputAudioBuffer s = [] ->
  speech1 <> [] ->
  (List.length pause <= 5)%nat ->
  Forall (fun p => audio_frame p = true) (speech1 ++ pause ++ speech2) ->
  verdicts (vad s) (speech1 ++ pause ++ speech2)
  = repeat (Ok true) (List.length speech1)
    ++ repeat (Ok false) (List.length pause)
    ++ repeat (Ok true) (List.length speech2) ->
  let r := loop s (map slin (speech1 ++ pause ++ speech2)) in
  fst r = Continue /\
  calls (snd r) = calls s /\
  trace (snd r) = trace s /\
  inputAudioBuffer (snd r) = map pcm_floats (speech1 ++ speech2).
Proof.
  intros Hb Hne Hlen Hok Hv r. subst r.
  apply Forall_app in Hok as [Hs1 Hok]. apply Forall_app in Hok as [Hp Hs2].
  rewrite verdicts_app in Hv.
  apply app_split_length in Hv as [Hv1 Hv];
    [|now rewrite verdicts_length, repeat_length].
  rewrite verdicts_app in Hv.
  apply app_split_length in Hv as [Hvp Hv2];
    [|now rewrite verdicts_length, repeat_length].
  rewrite app_assoc, map_app, loop_app.
  rewrite (before_sixth_silence s speech1 pause Hb Hne Hlen Hs1 Hp Hv1 Hvp).
  rewrite speech_run; [|exact Hs2|].
  - cbn [fst snd calls trace inputAudioBuffer with_segment with_vad].
    rewrite map_app. auto.
  - cbn [vad with_segment with_vad]. rewrite detector_after_app. exact Hv2.
Qed.

(** *** Silence with nothing buffered *)

(** X10. While the buffer is empty, silence frames, however many, never
    cause a call of [handleInputAudio] nor any external call. *)
Theorem idle_silence_is_inert (qs : list (list byte)) :
  forall s : session VAD World,
  inputAudioBuffer s = [] ->
  Forall (fun p => audio_frame p = true) qs ->
  verdicts (vad s) qs = repeat (Ok false) (List.length qs) ->
  let r := loop s (map slin qs) in
  fst r = Continue /\
  calls (snd r) = calls s /\
  trace (snd r) = trace s /\
  world (snd r) = world s /\
  inputAudioBuffer (snd r) = [].
Proof.
  induction qs as [|p qs IH]; intros s Hb Hok Hv; [cbn; auto|].
  inversion Hok as [|? ? Hp Hps]; subst.
  cbn [classify List.length repeat] in Hv. injection Hv as Hhd Htl.
  assert (Hproc : vad_Process (vad s) rate p
                  = (Ok false, snd (vad_Process (vad s) rate p)))
    by (rewrite <- Hhd; apply surjective_pairing).
  cbn [map Handle_loop]. rewrite (iter_slin s p Hp).
  rewrite (on_slin_silence s p _ Hp Hproc). cbv zeta.
  cbn [silenceCount inputAudioBuffer with_segment with_vad]. rewrite Hb.
  cbn [List.length Z.of_nat Z.ltb Z.compare].
  set (s1 := with_segment (with_vad s (snd (vad_Process (vad s) rate p))) []
                          (wrap64 (silenceCount s + 1))).
  replace (if wrap64 (silenceCount s + 1) >? silenceThreshold then s1 else s1)
    with s1 by (now destruct (_ >? _)).
  apply (IH s1); [reflexivity|exact Hps|exact Htl].
Qed.

(** *** Every utterance handed over has speech in it *)

Lemma speech_kept_iter (s : session VAD World) (r : received) :
  Forall (fun chunk => chunk <> []) (inputAudioBuffer s) ->
  Forall (fun c => has_speech (call_buffer c)) (calls s) ->
  Forall (fun chunk => chunk <> []) (inputAudioBuffer (snd (iter s r))) /\
  Forall (fun c => has_speech (call_buffer c)) (calls (snd (iter s r))).
Proof.
  intros Hbuf Hcalls.
  destruct r as [| |m]; cbn [Handle_iter snd]; auto.
  destruct (Kind_of m); cbn [snd]; auto.
  destruct (ContentLength m <? 1) eqn:Hlen; cbn [snd]; auto.
  assert (Hne : Payload m <> []).
  { unfold ContentLength in Hlen. now destruct (Payload m). }
  unfold handle_slin.
  destruct (pcmToFloat32Array (Payload m)) as [floats|e] eqn:Hpcm; auto.
  pose proof (pcm_floats_nonempty (Payload m) floats Hne Hpcm) as Hfl.
  destruct (vad_Process (vad s) rate (Payload m)) as [[[|]|e] v]; cbn; auto.
  - split; [|exact Hcalls]. apply Forall_app. split; [exact Hbuf|]. now constructor.
  - destruct (_ >? _); cbn; auto.
    destruct (inputAudioBuffer s) as [|c0 cs] eqn:Hb; cbn; auto.
    unfold process_sentence. destruct (utter _ _ _ _ _ _) as [w' evs]. cbn.
    split; [constructor|].
    apply Forall_app. split; [exact Hcalls|].
    constructor; [|constructor]. cbn. split; [discriminate|exact Hbuf].
Qed.

(** X11. From the start of the loop on, whatever arrives, every call of
    [handleInputAudio] is given a buffer with at least one chunk, and no
    chunk of it is empty. *)
Theorem calls_have_speech (c : nat) (id : string) (v : VAD) (stt : STTSettings)
    (llm : LLMSettings) (w : World) (input : list received) :
  Forall (fun k => has_speech (call_buffer k))
         (calls (snd (loop (Handle_start c id v stt llm w) input))).
Proof.
  assert (H : forall (inp : list received) (s : session VAD World),
             Forall (fun chunk => chunk <> []) (inputAudioBuffer s) ->
             Forall (fun k => has_speech (call_buffer k)) (calls s) ->
             Forall (fun k => has_speech (call_buffer k)) (calls (snd (loop s inp)))).
  { induction inp as [|r inp IH]; intros s Hb Hc; [exact Hc|].
    cbn [Handle_loop].
    destruct (speech_kept_iter s r Hb Hc) as [Hb' Hc'].
    destruct (iter s r) as [[|] s']; cbn [snd] in *; auto. }
  apply H; constructor.
Qed.

(** *** Utterances the gate drops *)

Lemma six_silences_close (s : session VAD World)
    (speech quiet : list (list byte)) (last : list byte) :
  inputAudioBuffer s = [] ->
  speech <> [] ->
  List.length quiet = 5%nat ->
  Forall (fun p => audio_frame p = true) (speech ++ quiet ++ [last]) ->
  verdicts (vad s) (speech ++ quiet ++ [last])
  = repeat (Ok true) (List.length speech) ++ repeat (Ok false) 6 ->
  loop s (map slin (speech ++ quiet ++ [last])) =
  (Continue,
   close (with_segment
            (with_vad s (detector_after (vad s) (speech ++ quiet ++ [last])))
            (map pcm_floats speech) 6)).
Proof.
  intros Hb Hne Hlen Hok Hv.
  apply Forall_app in Hok as [Hs Hok]. apply Forall_app in Hok as [Hq Hl].
  inversion Hl as [|? ? Hlast _]; subst.
  rewrite verdicts_app in Hv.
  apply app_split_length in Hv as [Hvs Hv];
    [|now rewrite verdicts_length, repeat_length].
  change 6%nat with (5 + 1)%nat in Hv. rewrite repeat_app, verdicts_app in Hv.
  apply app_split_length in Hv as [Hvq Hvl];
    [|now rewrite verdicts_length, repeat_length].
  rewrite <- Hlen in Hvq.
  rewrite app_assoc, map_app, loop_app.
  rewrite (before_sixth_silence s speech quiet Hb Hne); try assumption; [|lia].
  cbn [map Handle_loop]. cbn in Hvl. injection Hvl as Hvl.
  rewrite <- detector_after_app in Hvl.
  rewrite (closing_step _ last
             (snd (vad_Process (detector_after (vad s) (speech ++ quiet)) rate last))
             Hlast).
  - cbn [inputAudioBuffer with_segment with_vad].
    rewrite (detector_after_app _ (speech ++ quiet) [last]). reflexivity.
  - cbn [vad with_segment with_vad]. rewrite <- Hvl. apply surjective_pairing.
  - cbn [silenceCount with_segment with_vad]. now rewrite Hlen.
  - cbn [inputAudioBuffer with_segment with_vad].
    destruct speech; [congruence|discriminate].
Qed.

(** X12. Fewer than forty consecutive 320-byte speech frames are closed
    as an utterance by the sixth silence frame and then dropped by the
    duration test: no transcription request, no other external call; the
    buffer is empty again. *)
Theorem short_utterance_dropped (s : session VAD World)
    (speech quiet : list (list byte)) (last : list byte) :
  inputAudioBuffer s = [] ->
  speech <> [] ->
  (List.length speech < 40)%nat ->
  List.length quiet = 5%nat ->
  Forall (fun p => List.length p = 320%nat) (speech ++ quiet ++ [last]) ->
  verdicts (vad s) (speech ++ quiet ++ [last])
  = repeat (Ok true) (List.length speech) ++ repeat (Ok false) 6 ->
  let r := loop s (map slin (speech ++ quiet ++ [last])) in
  fst r = Continue /\
  trace (snd r) = trace s /\
  world (snd r) = world s /\
  inputAudioBuffer (snd r) = [] /\
  calls (snd r) = calls s ++ [{| call_buffer := map pcm_floats speech;
                                 call_chatID := ChatID s;
                                 call_stt := sttSettings s;
                                 call_llm := llmSettings s |}].
Proof.
  intros Hb Hne Hk Hlen Hsize Hv r. subst r.
  assert (Hok : Forall (fun p => audio_frame p = true) (speech ++ quiet ++ [last])).
  { eapply Forall_impl; [|exact Hsize]. apply frame_320_is_audio. }
  rewrite (six_silences_close s speech quiet last Hb Hne Hlen Hok Hv).
  apply Forall_app in Hsize as [Hsize _].
  assert (Hshort : too_short (map pcm_floats speech) = true).
  { rewrite (too_short_lengths _ _ (frames_like_utterance speech Hsize)).
    now apply too_short_below_40. }
  unfold process_sentence.
  cbn [conn ChatID vad sttSettings llmSettings inputAudioBuffer silenceCount
       world trace calls with_segment with_vad].
  rewrite (too_short_rejected _ _ _ _ _ _ Hshort).
  cbn. rewrite app_nil_r. auto.
Qed.

(** *** The external calls of one utterance *)


(** X14. When the utterance is long enough, the transcript is not on the
    denylist and every service answers, the calls are exactly one exchange:
    the transcript goes to the chat log as the user's message and to the
    model, the model's reply goes to the chat log as the assistant's message
    and to the relay with language "ru", speed 1 and pacing 0.015. *)
Theorem full_exchange (c : nat) (buffer : list (list Float32.t))
    (chatID : string) (stt : STTSettings) (llm : LLMSettings)
    (w w1 w2 w3 w4 : World) (transcription content : string) :
  too_short buffer = false ->
  sendFloat32ArrayToServer transcribeURL (List.concat buffer)
                           (set_Language stt "ru") w = (Ok transcription, w1) ->
  ~ In transcription excludedWords ->
  API_SendMessage chatID "user" transcription w1 = (Ok tt, w2) ->
  LLM_Chat chatID chatModel UserSender transcription (llmOptions_of llm) w2
  = (Ok content, w3) ->
  API_SendMessage chatID "assistant" content w3 = (Ok tt, w4) ->
  utter c buffer chatID stt llm w
  = (websocketSendReceive websocketURI
       {| data_message := content; data_language := "ru";
          data_speed := 1; data_await_time := 15 # 1000 |} c w4,
     exchange c chatID (List.concat buffer) stt llm transcription content).
Proof.
  intros Hgate Hstt Hnot Hu Hllm Ha.
  unfold handleInputAudio. unfold too_short in Hgate. rewrite Hgate, Hstt.
  destruct (is_excluded transcription excludedWords) eqn:Hex;
    [apply is_excluded_In in Hex; contradiction|].
  now rewrite Hu, Hllm, Ha.
Qed.

(** X15. Of the settings, [handleInputAudio] uses the ten model options
    and the STT fields other than the language: settings that agree on
    these give the same calls and the same world.  The configured model
    name, system prompt, top-k, top-p, min-p and STT language have no
    effect on an utterance. *)
Theorem unused_settings_ignored (c : nat) (buffer : list (list Float32.t))
    (chatID : string) (stt : STTSettings) (language : string)
    (llm llm' : LLMSettings) (w : World) :
  llmOptions_of llm = llmOptions_of llm' ->
  utter c buffer chatID (set_Language stt language) llm' w
  = utter c buffer chatID stt llm w.
Proof.
  intros Hopt. unfold handleInputAudio. rewrite Hopt.
  change (set_Language (set_Language stt language) "ru") with (set_Language stt "ru").
  reflexivity.
Qed.

(** *** How the loop ends *)

Lemma terminal_iter (s : session VAD World) (r : received) :
  (terminal r = true -> iter s r = (Return, s)) /\
  (terminal r = false -> fst (iter s r) = Continue).
Proof.
  destruct r as [| |m]; cbn [terminal Handle_iter].
  - split; [reflexivity|discriminate].
  - split; [discriminate|reflexivity].
  - destruct (Kind_of m); split; try discriminate; try reflexivity.
    intros _. now destruct (ContentLength m <? 1).
Qed.

(** X27. The loop ends at the first end of stream or hangup and nowhere
    else: read errors, malformed frames and failures of the services while an
    utterance is processed never end the session.  At the end the session is
    as the earlier messages left it, so speech still in the buffer is never
    transcribed. *)
Theorem session_ends_at_first_terminal (s : session VAD World)
    (before after : list received) (r : received) :
  Forall (fun m => terminal m = false) before ->
  fst (loop s before) = Continue /\
  (terminal r = true ->
   loop s (before ++ r :: after) = (Return, snd (loop s before))).
Proof.
  revert s. induction before as [|m before IH]; intros s Hnon.
  - split; [reflexivity|]. intros Hr. cbn [app Handle_loop snd].
    now rewrite (proj1 (terminal_iter s r) Hr).
  - inversion Hnon as [|? ? Hm Hrest]; subst.
    cbn [app Handle_loop].
    pose proof (proj2 (terminal_iter s m) Hm) as Hc.
    destruct (iter s m) as [[|] s']; [|discriminate].
    apply IH. exact Hrest.
Qed.

End SessionFacts.

(** ** The session on concrete frames *)

Lemma denylisted_transcript_stops_witness :
  Toy.handle "Продолжение следует..." 7 (utterance_of 40) "call-1"
             Toy.stt0 Toy.llm0 []
  = ([], [EvTranscribe transcribeURL (List.concat (utterance_of 40))
                       (set_Language Toy.stt0 "ru")])
  /\ filter is_downstream
            (snd (Toy.handle "Продолжение следует..." 7 (utterance_of 40) "call-1"
                             Toy.stt0 Toy.llm0 [])) = [].
Proof.
  apply (denylisted_transcript_stops _ _
           (Toy.sendFloat32ArrayToServer "Продолжение следует...")
           Toy.API_SendMessage Toy.LLM_Chat Toy.websocketSendReceive
           7%nat (utterance_of 40) "call-1"%string Toy.stt0 Toy.llm0 [] []
           "Продолжение следует..."%string).
  - vm_compute. reflexivity.
  - reflexivity.
  - simpl. auto.
Defined.

Lemma vad_failure_skips_frame_witness :
  Toy.iter "hello" (with_segment Toy.start [chunk 2] 5) (slin Toy.short)
  = (Continue, with_vad (with_segment Toy.start [chunk 2] 5) tt) /\
  inputAudioBuffer (snd (Toy.iter "hello" (with_segment Toy.start [chunk 2] 5)
                                  (slin Toy.short))) = [chunk 2] /\
  silenceCount (snd (Toy.iter "hello" (with_segment Toy.start [chunk 2] 5)
                              (slin Toy.short))) = 5 /\
  calls (snd (Toy.iter "hello" (with_segment Toy.start [chunk 2] 5)
                       (slin Toy.short))) = [] /\
  trace (snd (Toy.iter "hello" (with_segment Toy.start [chunk 2] 5)
                       (slin Toy.short))) = [].
Proof.
  apply (vad_failure_skips_frame _ _ Toy.vad_Process _ _
           (Toy.sendFloat32ArrayToServer "hello")
           Toy.API_SendMessage Toy.LLM_Chat Toy.websocketSendReceive
           (with_segment Toy.start [chunk 2] 5) Toy.short tt tt).
  - reflexivity.
  - reflexivity.
Defined.

(** C5 (the claim fails). With five silences counted and speech buffered,
    a silence frame counts a sixth and closes the utterance; a frame the
    detector refuses leaves the counter at five and closes nothing. *)
Lemma vad_failure_is_not_silence :
  let s := with_segment Toy.start [chunk 2] 5 in
  fst (Toy.vad_Process (vad s) rate Toy.quiet) = Ok false /\
  fst (Toy.vad_Process (vad s) rate Toy.short) = Err tt /\
  silenceCount (snd (Toy.iter "hello" s (slin Toy.quiet))) = 6 /\
  List.length (calls (snd (Toy.iter "hello" s (slin Toy.quiet)))) = 1%nat /\
  silenceCount (snd (Toy.iter "hello" s (slin Toy.short))) = 5 /\
  calls (snd (Toy.iter "hello" s (slin Toy.short))) = [].
Proof. vm_compute. repeat split. Qed.

(** C1 (the claim fails). One speech frame and five silence frames: no
    utterance has been closed, the speech frame is still buffered. *)
Lemma five_silences_do_not_close :
  let frames := Toy.speech :: repeat Toy.quiet 5 in
  classify Toy.vad_Process tt frames = Ok true :: repeat (Ok false) 5 /\
  fst (Toy.loop "hello" Toy.start (map slin frames)) = Continue /\
  calls (snd (Toy.loop "hello" Toy.start (map slin frames))) = [] /\
  trace (snd (Toy.loop "hello" Toy.start (map slin frames))) = [] /\
  inputAudioBuffer (snd (Toy.loop "hello" Toy.start (map slin frames)))
  = [pcm_floats Toy.speech] /\
  silenceCount (snd (Toy.loop "hello" Toy.start (map slin frames))) = 5.
Proof. vm_compute. repeat split. Qed.

Lemma utterance_closed_on_sixth_silence_witness :
  let speech := [Toy.speech; Toy.speech] in
  let silence := repeat Toy.quiet 6 in
  let utterance := {| call_buffer := map pcm_floats speech;
                      call_chatID := "call-1";
                      call_stt := Toy.stt0;
                      call_llm := Toy.llm0 |} in
  (forall k, (k <= 5)%nat ->
     let sk := snd (Toy.loop "hello" Toy.start
                             (map slin (speech ++ firstn k silence))) in
     calls sk = [] /\
     inputAudioBuffer sk = map pcm_floats speech /\
     silenceCount sk = Z.of_nat k) /\
  (let s6 := snd (Toy.loop "hello" Toy.start (map slin (speech ++ silence))) in
   calls s6 = [utterance] /\ inputAudioBuffer s6 = []) /\
  (let r7 := Toy.loop "hello" Toy.start
                      (map slin (speech ++ silence ++ [Toy.speech])) in
   fst r7 = Continue /\
   calls (snd r7) = [utterance] /\
   inputAudioBuffer (snd r7) = [pcm_floats Toy.speech] /\
   silenceCount (snd r7) = 0).
Proof.
  apply (utterance_closed_on_sixth_silence _ _ Toy.vad_Process _ _
           (Toy.sendFloat32ArrayToServer "hello")
           Toy.API_SendMessage Toy.LLM_Chat Toy.websocketSendReceive
           Toy.start [Toy.speech; Toy.speech] (repeat Toy.quiet 6) Toy.speech).
  - reflexivity.
  - discriminate.
  - reflexivity.
  - repeat constructor.
  - reflexivity.
Defined.

(** ** The playback relay *)

(** A relay that finds its context cancelled at the select returns without
    writing. *)
Lemma cancelled_relay_returns (s : Relay.system) (i : nat) (r : Relay.relay) :
  nth_error (Relay.relays s) i = Some r ->
  Relay.r_pc r = Relay.AtSelect ->
  Relay.is_cancelled s i = true ->
  Relay.step i s = Some (Relay.exit s i r (Relay.r_stream r)) /\
  Relay.written (Relay.exit s i r (Relay.r_stream r)) = Relay.written s.
Proof.
  intros Hr Hpc Hc. unfold Relay.step. rewrite Hr, Hpc, Hc. split; reflexivity.
Qed.

(** A relay already inside [ReadMessage] does not look at its context: the
    next binary message is written to the connection, cancelled or not. *)
Lemma reading_relay_writes (s : Relay.system) (i : nat) (r : Relay.relay)
    (p : list byte) (rest : list Relay.ws_message) :
  nth_error (Relay.relays s) i = Some r ->
  Relay.r_pc r = Relay.InReadMessage ->
  Relay.r_stream r = Relay.BinaryMessage p :: rest ->
  Relay.step i s = Some (Relay.write s i r p rest) /\
  Relay.written (Relay.write s i r p rest)
  = Relay.written s ++ [Relay.frame_of (Relay.r_conn r) i p].
Proof.
  intros Hr Hpc Hs. unfold Relay.step. rewrite Hr, Hpc, Hs. split; reflexivity.
Qed.

(** C2 (the code at the failing schedule). Relay 0 of call 7 is inside
    [ReadMessage] when relay 1 is started for the same call.  Relay 0 is
    cancelled from then on, relay 1 writes its first frame, and relay 0 then
    writes one more frame: on the connection the frames of the two relays
    are interleaved. *)
Theorem superseded_relay_writes_after_successor :
  exists s1 s2,
    Relay.run Relay.supersede_schedule Relay.init = Some s1 /\
    Relay.is_cancelled s1 0 = true /\
    Relay.written s1 = [Relay.frame_of 7 0 Relay.a1; Relay.frame_of 7 1 Relay.b1] /\
    Relay.step 0 s1 = Some s2 /\
    Relay.written s2 = [Relay.frame_of 7 0 Relay.a1; Relay.frame_of 7 1 Relay.b1;
                        Relay.frame_of 7 0 Relay.a2] /\
    Relay.writers 7 s2 = [0; 1; 0]%nat.
Proof.
  eexists _, _. split; [vm_compute; reflexivity|].
  split; [reflexivity|]. split; [reflexivity|].
  split; [vm_compute; reflexivity|].
  split; reflexivity.
Qed.

(** C3 (the claim fails). Relay 0 serves call 7 and is not cancelled;
    the session of call 8 starts a relay; relay 0 is cancelled by it and
    returns at its select with audio still to deliver. *)
Lemma relay_cancelled_by_other_call :
  exists s1 s2 s3,
    Relay.run Relay.other_call_schedule Relay.init = Some s1 /\
    option_map Relay.r_conn (nth_error (Relay.relays s1) 0) = Some 7%nat /\
    Relay.is_cancelled s1 0 = false /\
    Relay.perform Relay.other_call_start s1 = Some s2 /\
    option_map Relay.r_conn (nth_error (Relay.relays s2) 1) = Some 8%nat /\
    Relay.is_cancelled s2 0 = true /\
    Relay.step 0 s2 = Some s3 /\
    option_map Relay.r_pc (nth_error (Relay.relays s3) 0) = Some Relay.Exited /\
    option_map Relay.r_stream (nth_error (Relay.relays s3) 0)
    = Some [Relay.BinaryMessage Relay.a2; Relay.TextEndOfAudio] /\
    Relay.writers 7 s3 = [0%nat].
Proof.
  eexists _, _, _. split; [vm_compute; reflexivity|].
  split; [reflexivity|]. split; [reflexivity|].
  split; [vm_compute; reflexivity|].
  split; [reflexivity|]. split; [reflexivity|].
  split; [vm_compute; reflexivity|].
  repeat split.
Qed.

(** C3 (as the code has it). The handle [wsCancel] belongs to the process,
    not to a call: starting a relay, for whichever call, cancels the context
    the handle holds at that moment, and changes the cancellation of no other
    context. *)
Theorem start_cancels_installed_relay (s : Relay.system) (c : nat)
    (dial_ok json_ok : bool) (stream : list Relay.ws_message) (k : nat) :
  Relay.wsCancel s = Some k ->
  Relay.is_cancelled (Relay.websocketSendReceive c dial_ok json_ok stream s) k = true /\
  (forall i, i <> k ->
     Relay.is_cancelled (Relay.websocketSendReceive c dial_ok json_ok stream s) i
     = Relay.is_cancelled s i) /\
  Relay.wsCancel (Relay.websocketSendReceive c dial_ok json_ok stream s)
  = Some (List.length (Relay.relays s)).
Proof.
  intros Hk. unfold Relay.is_cancelled, Relay.websocketSendReceive.
  cbn [Relay.cancelled Relay.wsCancel]. rewrite Hk. cbn [existsb].
  split; [now rewrite Nat.eqb_refl|]. split; [|reflexivity].
  intros i Hi. apply Nat.eqb_neq in Hi. now rewrite Hi.
Qed.

Lemma start_cancels_installed_relay_witness :
  let s := Relay.websocketSendReceive 7 true true [Relay.BinaryMessage Relay.a1]
                                      Relay.init in
  Relay.is_cancelled
    (Relay.websocketSendReceive 8 true true [Relay.BinaryMessage Relay.b1] s) 0
  = true /\
  (forall i, i <> 0%nat ->
     Relay.is_cancelled
       (Relay.websocketSendReceive 8 true true [Relay.BinaryMessage Relay.b1] s) i
     = Relay.is_cancelled s i) /\
  Relay.wsCancel
    (Relay.websocketSendReceive 8 true true [Relay.BinaryMessage Relay.b1] s)
  = Some 1%nat.
Proof.
  apply (start_cancels_installed_relay
           (Relay.websocketSendReceive 7 true true [Relay.BinaryMessage Relay.a1]
                                       Relay.init)
           8%nat true true [Relay.BinaryMessage Relay.b1] 0%nat).
  reflexivity.
Defined.

(** ** The noise gate *)

Lemma pair_induction {A : Type} (P : list A -> Prop) :
  P [] -> (forall a, P [a]) ->
  (forall a b rest, P rest -> P (a :: b :: rest)) ->
  forall l, P l.
Proof.
  intros Hnil Hone Hstep.
  assert (H : forall l, P l /\ forall a, P (a :: l)).
  { induction l as [|b l [IH1 IH2]]; split; auto. }
  intros l. apply H.
Qed.

Lemma float_same_eq (x y : spec_float) : float_same x y = true -> x = y.
Proof.
  destruct x as [a|a| |a m e], y as [b|b| |b m' e']; cbn; try discriminate; auto.
  - intros H. apply Bool.eqb_prop in H. now subst.
  - intros H. apply Bool.eqb_prop in H. now subst.
  - intros H. apply andb_true_iff in H as [H He]. apply andb_true_iff in H as [Hs Hm].
    apply Bool.eqb_prop in Hs. apply Pos.eqb_eq in Hm. apply Z.eqb_eq in He.
    now subst.
Qed.

Lemma of_int_canon_all : forallb of_int_canon (zrange 1 int16_count) = true.
Proof. vm_compute. reflexivity. Qed.

Lemma of_int_small (n : Z) :
  1 <= n <= 32768 ->
  Float64.of_int n = canon n /\ Float64.of_int (- n) = SFopp (canon n).
Proof.
  intros Hn.
  assert (H : of_int_canon n = true).
  { apply (zrange_forallb of_int_canon int16_count 1 of_int_canon_all).
    unfold int16_count. rewrite Nat2Z.inj_pow. simpl Z.of_nat.
    change (2 ^ 15) with 32768. lia. }
  unfold of_int_canon in H. apply andb_true_iff in H as [H1 H2].
  split; now apply float_same_eq.
Qed.

Lemma canon_ltb (a b : Z) :
  1 <= a <= 32768 -> 1 <= b <= 32768 ->
  SFltb (canon a) (canon b) = (a <? b).
Proof.
  intros Ha Hb.
  assert (Hla : 0 <= Z.log2 a <= 15).
  { split; [apply Z.log2_nonneg|].
    assert (Z.log2 a < 16) by (apply Z.log2_lt_pow2; lia). lia. }
  assert (Hlb : 0 <= Z.log2 b <= 15).
  { split; [apply Z.log2_nonneg|].
    assert (Z.log2 b < 16) by (apply Z.log2_lt_pow2; lia). lia. }
  unfold SFltb, SFcompare, canon.
  destruct (Z.compare_spec (Z.log2 a) (Z.log2 b)) as [Heq|Hlt|Hgt].
  - rewrite Heq, Z.compare_refl.
    change (Pos.compare_cont Eq) with Pos.compare.
    assert (Hp : 0 < 2 ^ (52 - Z.log2 b)) by (apply Z.pow_pos_nonneg; lia).
    rewrite <- Z2Pos.inj_compare by nia.
    unfold Z.ltb.
    destruct (Z.compare_spec a b) as [Hab|Hab|Hab].
    + subst. now rewrite Z.compare_refl.
    + replace (a * 2 ^ (52 - Z.log2 b) ?= b * 2 ^ (52 - Z.log2 b)) with Lt
        by (symmetry; apply Z.compare_lt_iff; nia).
      reflexivity.
    + replace (a * 2 ^ (52 - Z.log2 b) ?= b * 2 ^ (52 - Z.log2 b)) with Gt
        by (symmetry; apply Z.compare_gt_iff; nia).
      reflexivity.
  - replace (Z.log2 a - 52 ?= Z.log2 b - 52) with Lt
      by (symmetry; apply Z.compare_lt_iff; lia).
    apply Z.log2_lt_cancel in Hlt. symmetry. apply Z.ltb_lt. exact Hlt.
  - replace (Z.log2 a - 52 ?= Z.log2 b - 52) with Gt
      by (symmetry; apply Z.compare_gt_iff; lia).
    apply Z.log2_lt_cancel in Hgt. symmetry. apply Z.ltb_ge. lia.
Qed.

(** On 16-bit operands the binary64 comparison is the integer one. *)
Lemma gate_sample_spec (sample threshold : Z) :
  -32768 <= sample <= 32767 ->
  -32768 <= threshold <= 32767 ->
  gate_sample sample threshold = if Z.abs sample <? threshold then 0 else sample.
Proof.
  intros Hs Ht. unfold gate_sample, Float64.ltb, math_Abs.
  assert (Habs : SFabs (Float64.of_int sample)
                 = if Z.eqb sample 0 then S754_zero false else canon (Z.abs sample)).
  { destruct (Z.eqb_spec sample 0) as [->|Hnz]; [reflexivity|].
    destruct (Z.abs_spec sample) as [[Hpos ->]|[Hneg ->]].
    - destruct (of_int_small sample) as [-> _]; [lia|reflexivity].
    - destruct (of_int_small (- sample)) as [_ H]; [lia|].
      rewrite Z.opp_involutive in H. rewrite H. reflexivity. }
  rewrite Habs.
  destruct (Z_lt_le_dec 0 threshold) as [Hpos|Hnonpos].
  - destruct (of_int_small threshold) as [-> _]; [lia|].
    destruct (Z.eqb_spec sample 0) as [->|Hnz].
    + cbn. now destruct (Z.ltb_spec 0 threshold); [|lia].
    + rewrite canon_ltb by lia. reflexivity.
  - replace (Z.abs sample <? threshold) with false
      by (symmetry; apply Z.ltb_ge; lia).
    destruct (Z.eq_dec threshold 0) as [->|Hneg].
    + now destruct (sample =? 0).
    + destruct (of_int_small (- threshold)) as [_ H]; [lia|].
      rewrite Z.opp_involutive in H. rewrite H.
      now destruct (sample =? 0).
Qed.

(** *** Bytes and 16-bit words *)

Lemma LittleEndian_Uint16_add (b0 b1 : byte) :
  LittleEndian_Uint16 b0 b1 = byteZ b0 + 256 * byteZ b1.
Proof.
  unfold LittleEndian_Uint16.
  pose proof (byteZ_range b0) as H0. pose proof (byteZ_range b1) as H1.
  rewrite Z.shiftl_mul_pow2 by lia. change (2 ^ 8) with 256.
  rewrite (Z.mul_comm (byteZ b1)).
  assert (Hland : Z.land (byteZ b0) (256 * byteZ b1) = 0).
  { apply Z.bits_inj'. intros n Hn. rewrite Z.land_spec, Z.bits_0.
    destruct (Z_lt_le_dec n 8) as [Hlt|Hge].
    - replace (256 * byteZ b1) with (byteZ b1 * 2 ^ 8)
        by (change (2 ^ 8) with 256; lia).
      rewrite Z.mul_pow2_bits_low by lia. apply andb_false_r.
    - destruct (Z.eq_dec (byteZ b0) 0) as [->|Hnz]; [now rewrite Z.bits_0|].
      rewrite (Z.bits_above_log2 (byteZ b0)); [reflexivity|lia|].
      assert (Z.log2 (byteZ b0) < 8)
        by (apply Z.log2_lt_pow2; [lia|]; change (2 ^ 8) with 256; lia).
      lia. }
  now rewrite <- (Z.lxor_lor _ _ Hland), <- (Z.add_nocarry_lxor _ _ Hland).
Qed.

Lemma byteZ_byte_of_Z (z : Z) : byteZ (byte_of_Z z) = z mod 256.
Proof.
  unfold byteZ, byte_of_Z.
  pose proof (Z.mod_pos_bound z 256 ltac:(lia)) as Hm.
  destruct (Byte.of_N (Z.to_N (z mod 256))) as [b|] eqn:Hb.
  - apply Byte.to_of_N in Hb. rewrite Hb. lia.
  - apply Byte.of_N_None_iff in Hb. lia.
Qed.

Lemma byte_of_Z_byteZ (b : byte) : byte_of_Z (byteZ b) = b.
Proof.
  unfold byte_of_Z. pose proof (byteZ_range b) as Hb.
  rewrite Z.mod_small by lia. unfold byteZ. rewrite N2Z.id, Byte.of_to_N.
  reflexivity.
Qed.

Lemma byteZ_inj (a b : byte) : byteZ a = byteZ b -> a = b.
Proof.
  intros H. rewrite <- (byte_of_Z_byteZ a), <- (byte_of_Z_byteZ b). now rewrite H.
Qed.

(** Writing a 16-bit word and reading it back, and the converse. *)
Lemma Uint16_PutUint16 (v : Z) :
  0 <= v < 65536 ->
  LittleEndian_Uint16 (fst (LittleEndian_PutUint16 v)) (snd (LittleEndian_PutUint16 v)) = v.
Proof.
  intros Hv. unfold LittleEndian_PutUint16. cbn [fst snd].
  rewrite LittleEndian_Uint16_add, !byteZ_byte_of_Z.
  rewrite Z.shiftr_div_pow2 by lia. change (2 ^ 8) with 256.
  rewrite (Z.mod_small (v / 256)) by (split; [apply Z.div_pos; lia|apply Z.div_lt_upper_bound; lia]).
  pose proof (Z.div_mod v 256 ltac:(lia)). lia.
Qed.

Lemma PutUint16_Uint16 (b0 b1 : byte) :
  LittleEndian_PutUint16 (LittleEndian_Uint16 b0 b1) = (b0, b1).
Proof.
  unfold LittleEndian_PutUint16. rewrite LittleEndian_Uint16_add.
  pose proof (byteZ_range b0) as H0. pose proof (byteZ_range b1) as H1.
  rewrite Z.shiftr_div_pow2 by lia. change (2 ^ 8) with 256.
  f_equal; apply byteZ_inj; rewrite byteZ_byte_of_Z.
  - replace (byteZ b0 + 256 * byteZ b1) with (byteZ b0 + byteZ b1 * 256) by lia.
    rewrite Z.mod_add by lia. apply Z.mod_small. lia.
  - replace (byteZ b0 + 256 * byteZ b1) with (byteZ b0 + byteZ b1 * 256) by lia.
    rewrite Z.div_add by lia. rewrite Z.div_small by lia.
    apply Z.mod_small. lia.
Qed.

Lemma int16_of_uint16_range (u : Z) :
  0 <= u < 65536 -> -32768 <= int16_of_uint16 u <= 32767.
Proof.
  intros Hu. unfold int16_of_uint16. destruct (Z.ltb_spec u 32768); lia.
Qed.

Lemma uint16_of_int16_of_uint16 (u : Z) :
  0 <= u < 65536 -> uint16_of_int16 (int16_of_uint16 u) = u.
Proof.
  intros Hu. unfold uint16_of_int16, int16_of_uint16.
  destruct (Z.ltb_spec u 32768).
  - apply Z.mod_small. lia.
  - replace (u - 65536) with (u + (-1) * 65536) by lia.
    rewrite Z.mod_add by lia. apply Z.mod_small. lia.
Qed.

Lemma int16_of_uint16_of_int16 (s : Z) :
  -32768 <= s <= 32767 -> int16_of_uint16 (uint16_of_int16 s) = s.
Proof.
  intros Hs. unfold uint16_of_int16, int16_of_uint16.
  destruct (Z_lt_le_dec s 0) as [Hneg|Hnn].
  - replace (s mod 65536) with (s + 65536).
    + destruct (Z.ltb_spec (s + 65536) 32768); lia.
    + symmetry. replace s with (s + 65536 + (-1) * 65536) at 1 by lia.
      rewrite Z.mod_add by lia. apply Z.mod_small. lia.
  - rewrite Z.mod_small by lia. destruct (Z.ltb_spec s 32768); lia.
Qed.

Lemma uint16_of_int16_range (s : Z) : 0 <= uint16_of_int16 s < 65536.
Proof. unfold uint16_of_int16. apply Z.mod_pos_bound. lia. Qed.

Lemma sample_range (b0 b1 : byte) :
  -32768 <= int16_of_uint16 (LittleEndian_Uint16 b0 b1) <= 32767.
Proof. apply int16_of_uint16_range, LittleEndian_Uint16_range. Qed.

(** The sample read back from the two bytes the gate writes. *)
Lemma gated_sample_read_back (s : Z) :
  -32768 <= s <= 32767 ->
  int16_of_uint16
    (LittleEndian_Uint16 (fst (LittleEndian_PutUint16 (uint16_of_int16 s)))
                         (snd (LittleEndian_PutUint16 (uint16_of_int16 s)))) = s.
Proof.
  intros Hs. rewrite Uint16_PutUint16 by apply uint16_of_int16_range.
  now apply int16_of_uint16_of_int16.
Qed.

(** *** [NoiseGate] *)

Lemma gate_sample_range (s t : Z) :
  -32768 <= s <= 32767 -> -32768 <= t <= 32767 ->
  -32768 <= gate_sample s t <= 32767.
Proof.
  intros Hs Ht. rewrite gate_sample_spec by assumption.
  destruct (Z.abs s <? t); lia.
Qed.

Lemma gate_sample_idempotent (s t : Z) :
  -32768 <= s <= 32767 -> -32768 <= t <= 32767 ->
  gate_sample (gate_sample s t) t = gate_sample s t.
Proof.
  intros Hs Ht. rewrite (gate_sample_spec s t Hs Ht).
  destruct (Z.ltb_spec (Z.abs s) t) as [Hlt|Hge].
  - rewrite gate_sample_spec by lia. now destruct (Z.abs 0 <? t).
  - rewrite gate_sample_spec by lia.
    destruct (Z.ltb_spec (Z.abs s) t); [lia|reflexivity].
Qed.

Lemma NoiseGate_pair (b0 b1 : byte) (rest : list byte) (t : Z) :
  NoiseGate (b0 :: b1 :: rest) t =
  fst (LittleEndian_PutUint16
         (uint16_of_int16
            (gate_sample (int16_of_uint16 (LittleEndian_Uint16 b0 b1)) t)))
  :: snd (LittleEndian_PutUint16
            (uint16_of_int16
               (gate_sample (int16_of_uint16 (LittleEndian_Uint16 b0 b1)) t)))
  :: NoiseGate rest t.
Proof.
  cbn [NoiseGate]. now destruct (LittleEndian_PutUint16 _).
Qed.

(** X1. The gate returns as many bytes as it is given; when that number
    is odd, the last byte of the result is zero whatever the input byte. *)
Theorem NoiseGate_shape (input : list byte) (threshold : Z) :
  List.length (NoiseGate input threshold) = List.length input /\
  (Nat.odd (List.length input) = true ->
   last (NoiseGate input threshold) x01 = x00).
Proof.
  induction input as [| b | b0 b1 rest [IHlen IHlast]] using pair_induction.
  - split; [reflexivity|discriminate].
  - split; reflexivity.
  - rewrite NoiseGate_pair. split.
    + cbn [List.length]. now rewrite IHlen.
    + intros Hodd. cbn [List.length] in Hodd.
      rewrite Nat.odd_succ, Nat.even_succ in Hodd.
      specialize (IHlast Hodd).
      destruct (NoiseGate rest threshold) as [|o os] eqn:Hout.
      * destruct rest; [discriminate|]. cbn in IHlen. discriminate.
      * cbn [last]. exact IHlast.
Qed.

Lemma NoiseGate_shape_witness :
  List.length (NoiseGate [x10; x00; x07] 5) = 3%nat /\
  last (NoiseGate [x10; x00; x07] 5) x01 = x00.
Proof.
  split.
  - apply (proj1 (NoiseGate_shape [x10; x00; x07] 5)).
  - apply (proj2 (NoiseGate_shape [x10; x00; x07] 5)). reflexivity.
Defined.

(** X2. Sample by sample: the [i]-th 16-bit sample of the result is zero
    when the magnitude of the [i]-th input sample is below the threshold,
    and the input sample itself otherwise. *)
Theorem NoiseGate_samples (input : list byte) (threshold : Z) (i : nat) :
  -32768 <= threshold <= 32767 ->
  (2 * i + 1 < List.length input)%nat ->
  sample_at (NoiseGate input threshold) i
  = if Z.abs (sample_at input i) <? threshold then 0 else sample_at input i.
Proof.
  intros Ht. revert i.
  induction input as [| b | b0 b1 rest IH] using pair_induction; intros i Hi.
  - cbn in Hi. lia.
  - cbn in Hi. lia.
  - rewrite NoiseGate_pair. destruct i as [|i].
    + unfold sample_at. cbn [Nat.mul Nat.add nth].
      rewrite gated_sample_read_back
        by (apply gate_sample_range; [apply sample_range|exact Ht]).
      apply gate_sample_spec; [apply sample_range|exact Ht].
    + rewrite !sample_at_cons2. apply IH. cbn [List.length] in Hi. lia.
Qed.

Lemma NoiseGate_samples_witness :
  sample_at (NoiseGate [x03; x00; x00; x01] 16) 0 = 0 /\
  sample_at (NoiseGate [x03; x00; x00; x01] 16) 1 = 256.
Proof.
  split.
  - apply (NoiseGate_samples [x03; x00; x00; x01] 16 0); [lia|simpl; lia].
  - apply (NoiseGate_samples [x03; x00; x00; x01] 16 1); [lia|simpl; lia].
Defined.

(** X3. Gating twice with the same threshold is gating once. *)
Theorem NoiseGate_idempotent (input : list byte) (threshold : Z) :
  -32768 <= threshold <= 32767 ->
  NoiseGate (NoiseGate input threshold) threshold = NoiseGate input threshold.
Proof.
  intros Ht.
  induction input as [| b | b0 b1 rest IH] using pair_induction.
  - reflexivity.
  - reflexivity.
  - rewrite NoiseGate_pair. rewrite NoiseGate_pair.
    rewrite gated_sample_read_back
      by (apply gate_sample_range; [apply sample_range|exact Ht]).
    rewrite gate_sample_idempotent by (try apply sample_range; exact Ht).
    now rewrite IH.
Qed.

Lemma NoiseGate_idempotent_witness :
  NoiseGate (NoiseGate [x03; x00; x00; x01; x09] 16) 16
  = NoiseGate [x03; x00; x00; x01; x09] 16.
Proof. apply (NoiseGate_idempotent [x03; x00; x00; x01; x09] 16). lia. Defined.

(** X4. With a threshold of zero or less nothing is gated: an input of
    even length is returned byte for byte. *)
Theorem NoiseGate_nonpositive_threshold (input : list byte) (threshold : Z) :
  -32768 <= threshold <= 0 ->
  Nat.even (List.length input) = true ->
  NoiseGate input threshold = input.
Proof.
  intros Ht.
  induction input as [| b | b0 b1 rest IH] using pair_induction; intros Heven.
  - reflexivity.
  - discriminate.
  - rewrite NoiseGate_pair.
    rewrite gate_sample_spec by (try apply sample_range; lia).
    replace (Z.abs (int16_of_uint16 (LittleEndian_Uint16 b0 b1)) <? threshold)
      with false by (symmetry; apply Z.ltb_ge; lia).
    rewrite uint16_of_int16_of_uint16 by apply LittleEndian_Uint16_range.
    rewrite PutUint16_Uint16. cbn [fst snd].
    rewrite IH; [reflexivity|].
    cbn [List.length] in Heven. now rewrite Nat.even_succ, Nat.odd_succ in Heven.
Qed.

Lemma NoiseGate_nonpositive_threshold_witness :
  NoiseGate [x03; x00; xff; x7f] 0 = [x03; x00; xff; x7f].
Proof.
  apply (NoiseGate_nonpositive_threshold [x03; x00; xff; x7f] 0); [lia|reflexivity].
Defined.

(** *** More on [pcmToFloat32Array] *)

Lemma pcm_Ok_even (pcmData : list byte) (out : list Float32.t) :
  pcmToFloat32Array pcmData = Ok out ->
  exists n, List.length pcmData = (2 * n)%nat /\ read_samples n pcmData = Ok out.
Proof.
  unfold pcmToFloat32Array.
  destruct (Nat.eqb_spec (Nat.modulo (List.length pcmData) 2) 0) as [Hm|Hm];
    cbn [negb]; [|discriminate].
  intros H. exists (Nat.div (List.length pcmData) 2). split; [|exact H].
  pose proof (Nat.div_mod_eq (List.length pcmData) 2). lia.
Qed.

Lemma read_samples_app (n m : nat) :
  forall a b : list byte,
  List.length a = (2 * n)%nat ->
  read_samples (n + m) (a ++ b) =
  match read_samples n a, read_samples m b with
  | Ok fa, Ok fb => Ok (fa ++ fb)
  | Ok _, Err e => Err e
  | Err e, _ => Err e
  end.
Proof.
  induction n as [|n IH]; intros a b Hlen.
  - destruct a; [|discriminate]. cbn. now destruct (read_samples m b).
  - destruct a as [|b0 [|b1 a]]; cbn in Hlen; try lia.
    cbn [Nat.add app read_samples binary_Read_int16].
    rewrite (IH a b) by lia.
    destruct (read_samples n a); [|reflexivity].
    now destruct (read_samples m b).
Qed.

(** X5. Conversion commutes with concatenation: converting two payloads
    and appending the samples is converting the appended payloads, which is
    why merging the chunks of an utterance loses nothing. *)
Theorem pcmToFloat32Array_app (a b : list byte) (fa fb : list Float32.t) :
  pcmToFloat32Array a = Ok fa ->
  pcmToFloat32Array b = Ok fb ->
  pcmToFloat32Array (a ++ b) = Ok (fa ++ fb).
Proof.
  intros Ha Hb.
  apply pcm_Ok_even in Ha as (n & Hna & Hra).
  apply pcm_Ok_even in Hb as (m & Hnb & Hrb).
  rewrite (even_length_passes (a ++ b) (n + m)) by (rewrite length_app; lia).
  now rewrite (read_samples_app n m a b Hna), Hra, Hrb.
Qed.

Lemma pcmToFloat32Array_app_witness :
  pcmToFloat32Array ([x00; x40] ++ [xff; xff; x01; x00])
  = Ok ([scale_sample 16384] ++ [scale_sample (-1); scale_sample 1]).
Proof.
  apply (pcmToFloat32Array_app [x00; x40] [xff; xff; x01; x00]); reflexivity.
Defined.

Lemma scale_sample_inj (b0 b1 c0 c1 : byte) :
  scale_sample (int16_of_uint16 (LittleEndian_Uint16 b0 b1))
  = scale_sample (int16_of_uint16 (LittleEndian_Uint16 c0 c1)) ->
  b0 = c0 /\ b1 = c1.
Proof.
  intros H.
  destruct (scale_sample_exact b0 b1) as [_ Hb].
  destruct (scale_sample_exact c0 c1) as [_ Hc].
  cbv zeta in Hb, Hc. rewrite H in Hb. rewrite Hb in Hc.
  assert (Hs : int16_of_uint16 (LittleEndian_Uint16 b0 b1)
               = int16_of_uint16 (LittleEndian_Uint16 c0 c1)).
  { unfold Qeq, Qdiv, Qmult, Qinv, inject_Z in Hc. cbn in Hc. lia. }
  assert (Hu : LittleEndian_Uint16 b0 b1 = LittleEndian_Uint16 c0 c1).
  { rewrite <- (uint16_of_int16_of_uint16 (LittleEndian_Uint16 b0 b1))
      by apply LittleEndian_Uint16_range.
    rewrite <- (uint16_of_int16_of_uint16 (LittleEndian_Uint16 c0 c1))
      by apply LittleEndian_Uint16_range.
    now rewrite Hs. }
  pose proof (PutUint16_Uint16 b0 b1) as Pb. rewrite Hu, PutUint16_Uint16 in Pb.
  injection Pb as -> ->. auto.
Qed.

Lemma read_samples_inj (n : nat) :
  forall a b out,
  List.length a = (2 * n)%nat -> List.length b = (2 * n)%nat ->
  read_samples n a = Ok out -> read_samples n b = Ok out -> a = b.
Proof.
  induction n as [|n IH]; intros a b out Ha Hb Hra Hrb.
  - destruct a, b; try discriminate. reflexivity.
  - destruct a as [|a0 [|a1 a]]; cbn in Ha; try lia.
    destruct b as [|b0 [|b1 b]]; cbn in Hb; try lia.
    cbn [read_samples binary_Read_int16] in Hra, Hrb.
    destruct (read_samples n a) as [fa|] eqn:Ea; [|discriminate].
    destruct (read_samples n b) as [fb|] eqn:Eb; [|discriminate].
    injection Hra as <-. injection Hrb as Hhd Htl.
    apply scale_sample_inj in Hhd as [-> ->]. subst fb.
    f_equal. f_equal. apply (IH a b fa); auto; lia.
Qed.

(** X6. The conversion loses nothing: two payloads with the same
    converted samples are the same bytes. *)
Theorem pcmToFloat32Array_injective (a b : list byte) (out : list Float32.t) :
  pcmToFloat32Array a = Ok out ->
  pcmToFloat32Array b = Ok out ->
  a = b.
Proof.
  intros Ha Hb.
  apply pcm_Ok_even in Ha as (n & Hna & Hra).
  apply pcm_Ok_even in Hb as (m & Hnb & Hrb).
  assert (Hlen : forall k l o, List.length l = (2 * k)%nat ->
                               read_samples k l = Ok o -> List.length o = k).
  { intros k l o Hl Hr. rewrite (read_samples_spec k l Hl) in Hr.
    injection Hr as <-. now rewrite length_map, length_seq. }
  assert (n = m) by (rewrite <- (Hlen n a out Hna Hra); apply (Hlen m b out Hnb Hrb)).
  subst m. exact (read_samples_inj n a b out Hna Hnb Hra Hrb).
Qed.

Lemma pcmToFloat32Array_injective_witness :
  [x00; x40; xff; xff] = [x00; x40; xff; xff].
Proof.
  apply (pcmToFloat32Array_injective [x00; x40; xff; xff] [x00; x40; xff; xff]
           [scale_sample 16384; scale_sample (-1)]); reflexivity.
Defined.

(** X7. Every converted sample is a finite number in the interval from -1
    (reached by the sample -32768) to 1 (never reached). *)
Theorem pcmToFloat32Array_normalized (pcmData : list byte) (out : list Float32.t) :
  pcmToFloat32Array pcmData = Ok out ->
  Forall (fun f => is_finite f = true /\
                   (-1 <= float_value f)%Q /\ (float_value f < 1)%Q) out.
Proof.
  intros H. apply pcm_Ok_even in H as (n & Hn & Hr).
  rewrite (read_samples_spec n pcmData Hn) in Hr. injection Hr as <-.
  apply Forall_forall. intros f Hin. apply in_map_iff in Hin as (i & <- & _).
  destruct (sample_at_in_bytes pcmData i) as (b0 & b1 & ->).
  destruct (scale_sample_exact b0 b1) as [Hfin Hval]. cbv zeta in Hval.
  pose proof (sample_range b0 b1) as Hs.
  split; [exact Hfin|]. rewrite Hval.
  unfold Qle, Qlt, Qdiv, Qmult, Qinv, inject_Z. cbn. lia.
Qed.

Lemma pcmToFloat32Array_normalized_witness :
  Forall (fun f => is_finite f = true /\
                   (-1 <= float_value f)%Q /\ (float_value f < 1)%Q)
         [scale_sample (-32768); scale_sample 32767].
Proof.
  apply (pcmToFloat32Array_normalized [x00; x80; xff; x7f]). reflexivity.
Defined.

(** ** More on the playback relay *)

Lemma update_length (rs : list Relay.relay) (i : nat) (r : Relay.relay) :
  List.length (Relay.update rs i r) = List.length rs.
Proof.
  revert i. induction rs as [|r0 rs IH]; intros [|i]; cbn; auto.
Qed.

Lemma update_same (rs : list Relay.relay) (i : nat) (r r0 : Relay.relay) :
  nth_error rs i = Some r0 -> nth_error (Relay.update rs i r) i = Some r.
Proof.
  revert i. induction rs as [|r1 rs IH]; intros [|i]; cbn; try discriminate; auto.
Qed.

Lemma update_other (rs : list Relay.relay) (i j : nat) (r : Relay.relay) :
  i <> j -> nth_error (Relay.update rs j r) i = nth_error rs i.
Proof.
  revert i j. induction rs as [|r1 rs IH]; intros [|i] [|j] Hij; cbn; auto;
    congruence.
Qed.

(** What one transition of relay [j] can be. *)
Lemma step_cases (j : nat) (s s' : Relay.system) :
  Relay.step j s = Some s' ->
  exists (r : Relay.relay) (p : Relay.pc) (stream : list Relay.ws_message),
    nth_error (Relay.relays s) j = Some r /\
    Relay.relays s' = Relay.update (Relay.relays s) j (Relay.goto r p stream) /\
    Relay.cancelled s' = Relay.cancelled s /\
    ((Relay.written s' = Relay.written s /\ p <> Relay.InReadMessage /\
      (p = Relay.Exited -> Relay.wsCancel s' = None) /\
      (Relay.r_pc r = Relay.AtSelect -> Relay.is_cancelled s j = true ->
       p = Relay.Exited))
     \/
     (Relay.r_pc r = Relay.InReadMessage /\ p = Relay.AtSelect /\
      exists payload,
        Relay.written s'
        = Relay.written s ++ [Relay.frame_of (Relay.r_conn r) j payload])
     \/
     (Relay.written s' = Relay.written s /\ p = Relay.InReadMessage /\
      Relay.r_pc r = Relay.AtSelect /\ Relay.is_cancelled s j = false)).
Proof.
  unfold Relay.step. destruct (nth_error (Relay.relays s) j) as [r|] eqn:Hr;
    [|discriminate].
  destruct (Relay.r_pc r) eqn:Hpc.
  - destruct (Relay.r_dial_ok r); intros H; injection H as <-;
      eexists r, _, _; (split; [reflexivity|]); (split; [reflexivity|]);
      (split; [reflexivity|]); left; repeat split; intros; try reflexivity; try congruence.
  - destruct (Relay.r_json_ok r); intros H; injection H as <-;
      eexists r, _, _; (split; [reflexivity|]); (split; [reflexivity|]);
      (split; [reflexivity|]); left; repeat split; intros; try reflexivity; try congruence.
  - destruct (Relay.is_cancelled s j) eqn:Hc; intros H; injection H as <-;
      eexists r, _, _; (split; [reflexivity|]); (split; [reflexivity|]);
      (split; [reflexivity|]).
    + left. repeat split; intros; try reflexivity; try congruence.
    + right. right. repeat split; try reflexivity; try assumption; try exact Hpc.
  - destruct (Relay.r_stream r) as [|[| |payload| |] rest]; [discriminate|..];
      intros H; injection H as <-;
      eexists r, _, _; (split; [reflexivity|]); (split; [reflexivity|]);
      (split; [reflexivity|]).
    + left. repeat split; intros; try reflexivity; try congruence.
    + left. repeat split; intros; try reflexivity; try congruence.
    + right. left. split; [exact Hpc|]. split; [reflexivity|]. now exists payload.
    + left. repeat split; intros; try reflexivity; try congruence.
    + left. repeat split; intros; try reflexivity; try congruence.
  - discriminate.
Qed.

Lemma pending_at_most_one (i : nat) (s : Relay.system) :
  (RelayCount.pending i s <= 1)%nat.
Proof.
  unfold RelayCount.pending.
  destruct (nth_error (Relay.relays s) i) as [r|]; [|lia].
  destruct (Relay.r_pc r); lia.
Qed.

Lemma frames_of_written (i : nat) (s s' : Relay.system) :
  Relay.written s' = Relay.written s ->
  RelayCount.frames_of i s' = RelayCount.frames_of i s.
Proof. unfold RelayCount.frames_of. now intros ->. Qed.

Lemma frames_of_write (i j c : nat) (payload : list byte) (s s' : Relay.system) :
  Relay.written s' = Relay.written s ++ [Relay.frame_of c j payload] ->
  RelayCount.frames_of i s'
  = (RelayCount.frames_of i s + if Nat.eqb j i then 1 else 0)%nat.
Proof.
  unfold RelayCount.frames_of. intros ->.
  rewrite filter_app, length_app. cbn [filter Relay.frame_of Relay.f_relay].
  now destruct (Nat.eqb j i).
Qed.

Lemma pending_update (i j : nat) (s s' : Relay.system) (r r' : Relay.relay) :
  nth_error (Relay.relays s) j = Some r ->
  Relay.relays s' = Relay.update (Relay.relays s) j r' ->
  RelayCount.pending i s'
  = if Nat.eqb i j
    then match Relay.r_pc r' with Relay.InReadMessage => 1%nat | _ => 0%nat end
    else RelayCount.pending i s.
Proof.
  intros Hr Hrel. unfold RelayCount.pending. rewrite Hrel.
  destruct (Nat.eqb_spec i j) as [->|Hij].
  - now rewrite (update_same _ _ _ _ Hr).
  - now rewrite update_other by exact Hij.
Qed.

(** One action never raises the number of frames a cancelled relay has
    written plus the one it may still have in hand. *)
Lemma cancelled_potential (a : Relay.action) (s s' : Relay.system) (i : nat) :
  Relay.is_cancelled s i = true ->
  Relay.perform a s = Some s' ->
  Relay.is_cancelled s' i = true /\
  (RelayCount.frames_of i s' + RelayCount.pending i s'
   <= RelayCount.frames_of i s + RelayCount.pending i s)%nat.
Proof.
  intros Hc Hp. destruct a as [c d j stream|j]; cbn [Relay.perform] in Hp.
  - injection Hp as <-. split.
    + unfold Relay.is_cancelled, Relay.websocketSendReceive in *.
      cbn [Relay.cancelled]. destruct (Relay.wsCancel s); [|exact Hc].
      cbn [existsb]. rewrite Hc. apply orb_true_r.
    + rewrite (frames_of_written i s (Relay.websocketSendReceive c d j stream s) eq_refl).
      apply Nat.add_le_mono_l.
      unfold RelayCount.pending, Relay.websocketSendReceive. cbn [Relay.relays].
      destruct (Nat.lt_ge_cases i (List.length (Relay.relays s))) as [Hlt|Hge].
      * rewrite nth_error_app1 by exact Hlt. lia.
      * rewrite nth_error_app2 by exact Hge.
        destruct (i - List.length (Relay.relays s))%nat as [|[|k]]; cbn; lia.
  - apply step_cases in Hp
      as (r & p & stream & Hr & Hrel & Hcan & [Hcase|[Hcase|Hcase]]).
    + destruct Hcase as (Hw & Hp & _ & _). split.
      * unfold Relay.is_cancelled in *. now rewrite Hcan.
      * rewrite (frames_of_written i s s' Hw).
        rewrite (pending_update i j s s' r _ Hr Hrel). cbn [Relay.goto Relay.r_pc].
        destruct (Nat.eqb i j); [destruct p; try lia; congruence|lia].
    + destruct Hcase as (Hpc & -> & payload & Hw). split.
      * unfold Relay.is_cancelled in *. now rewrite Hcan.
      * rewrite (frames_of_write i j _ payload s s' Hw).
        rewrite (pending_update i j s s' r _ Hr Hrel). cbn [Relay.goto Relay.r_pc].
        rewrite (Nat.eqb_sym j i).
        destruct (Nat.eqb_spec i j) as [->|Hij]; [|lia].
        unfold RelayCount.pending. rewrite Hr, Hpc. lia.
    + destruct Hcase as (Hw & -> & Hpc & Hnot). split.
      * unfold Relay.is_cancelled in *. now rewrite Hcan.
      * rewrite (frames_of_written i s s' Hw).
        rewrite (pending_update i j s s' r _ Hr Hrel). cbn [Relay.goto Relay.r_pc].
        destruct (Nat.eqb_spec i j) as [->|Hij]; [congruence|lia].
Qed.

(** X16. Once its context is cancelled a relay writes at most one more
    frame to the call, and none at all unless it was inside [ReadMessage]
    when it was cancelled: whatever the other goroutines and later calls of
    [websocketSendReceive] do. *)
Theorem cancelled_relay_writes_at_most_once
    (schedule : list Relay.action) (s s' : Relay.system) (i : nat) :
  Relay.is_cancelled s i = true ->
  Relay.run schedule s = Some s' ->
  (RelayCount.frames_of i s' <= RelayCount.frames_of i s + RelayCount.pending i s)%nat /\
  (RelayCount.pending i s <= 1)%nat.
Proof.
  intros Hc Hrun. split; [|apply pending_at_most_one].
  assert (H : (RelayCount.frames_of i s' + RelayCount.pending i s'
               <= RelayCount.frames_of i s + RelayCount.pending i s)%nat);
    [|lia].
  revert s Hc Hrun. induction schedule as [|a schedule IH]; intros s Hc Hrun.
  - injection Hrun as <-. lia.
  - cbn [Relay.run] in Hrun.
    destruct (Relay.perform a s) as [s1|] eqn:Hp; [|discriminate].
    destruct (cancelled_potential a s s1 i Hc Hp) as [Hc1 Hle].
    specialize (IH s1 Hc1 Hrun). lia.
Qed.

Lemma conn_kept (a : Relay.action) (s s' : Relay.system) (i : nat) (r : Relay.relay) :
  Relay.perform a s = Some s' ->
  nth_error (Relay.relays s) i = Some r ->
  exists r', nth_error (Relay.relays s') i = Some r' /\
             Relay.r_conn r' = Relay.r_conn r.
Proof.
  intros Hp Hr. destruct a as [c d j stream|j]; cbn [Relay.perform] in Hp.
  - injection Hp as <-. exists r. split; [|reflexivity].
    unfold Relay.websocketSendReceive. cbn [Relay.relays].
    rewrite nth_error_app1; [exact Hr|].
    apply nth_error_Some. congruence.
  - apply step_cases in Hp as (r0 & p & stream & Hr0 & Hrel & _ & _).
    rewrite Hrel. destruct (Nat.eq_dec i j) as [->|Hij].
    + rewrite (update_same _ _ _ _ Hr0). eexists. split; [reflexivity|].
      cbn. congruence.
    + rewrite update_other by exact Hij. now exists r.
Qed.

Lemma own_connection_kept (a : Relay.action) (s s' : Relay.system) :
  RelayCount.own_connection s ->
  Relay.perform a s = Some s' ->
  RelayCount.own_connection s'.
Proof.
  intros Hown Hp.
  assert (Hold : forall f, In f (Relay.written s) ->
            exists r, nth_error (Relay.relays s') (Relay.f_relay f) = Some r /\
                      Relay.r_conn r = Relay.f_conn f).
  { intros f Hin. destruct (Hown f Hin) as (r & Hr & Hconn).
    destruct (conn_kept a s s' _ r Hp Hr) as (r' & Hr' & Hc').
    exists r'. split; [exact Hr'|congruence]. }
  destruct a as [c d j stream|j]; cbn [Relay.perform] in Hp.
  - injection Hp as <-. exact Hold.
  - apply step_cases in Hp
      as (r & p & stream & Hr & Hrel & _ & [Hcase|[Hcase|Hcase]]).
    + destruct Hcase as (Hw & _). intros f Hin. rewrite Hw in Hin. auto.
    + destruct Hcase as (_ & _ & payload & Hw). intros f Hin.
      rewrite Hw in Hin. apply in_app_or in Hin as [Hin|[<-|[]]]; [auto|].
      cbn [Relay.frame_of Relay.f_relay Relay.f_conn].
      rewrite Hrel, (update_same _ _ _ _ Hr). eexists. split; reflexivity.
    + destruct Hcase as (Hw & _). intros f Hin. rewrite Hw in Hin. auto.
Qed.

(** X17. A relay writes only to the connection it was started for: in
    every state reached from the start of the process, each frame written
    went to the connection of the relay that wrote it. *)
Theorem relay_writes_to_own_connection
    (schedule : list Relay.action) (s : Relay.system) :
  Relay.run schedule Relay.init = Some s ->
  RelayCount.own_connection s.
Proof.
  assert (H : forall sched s0 s1,
             RelayCount.own_connection s0 -> Relay.run sched s0 = Some s1 ->
             RelayCount.own_connection s1).
  { induction sched as [|a sched IH]; intros s0 s1 Hown Hrun.
    - now injection Hrun as <-.
    - cbn [Relay.run] in Hrun.
      destruct (Relay.perform a s0) as [s2|] eqn:Hp; [|discriminate].
      exact (IH s2 s1 (own_connection_kept a s0 s2 Hown Hp) Hrun). }
  apply H. intros f [].
Qed.

Lemma relay_writes_to_own_connection_witness :
  RelayCount.own_connection (RelayCount.after Relay.supersede_schedule Relay.init).
Proof.
  apply (relay_writes_to_own_connection Relay.supersede_schedule). reflexivity.
Defined.

(** X18. When a relay returns, its deferred function empties the shared
    handle even if a newer relay has installed its own cancel function
    there; the next call of [websocketSendReceive] then cancels nothing, so
    the newer relay keeps running beside the one that call starts. *)
Theorem returning_relay_clears_handle (i : nat) (s s' : Relay.system) :
  Relay.step i s = Some s' ->
  option_map Relay.r_pc (nth_error (Relay.relays s') i) = Some Relay.Exited ->
  Relay.wsCancel s' = None /\
  forall (c : nat) (dial_ok json_ok : bool) (stream : list Relay.ws_message) (k : nat),
    Relay.is_cancelled (Relay.websocketSendReceive c dial_ok json_ok stream s') k
    = Relay.is_cancelled s' k.
Proof.
  intros Hstep Hpc.
  apply step_cases in Hstep
    as (r & p & stream & Hr & Hrel & _ & Hcase).
  rewrite Hrel, (update_same _ _ _ _ Hr) in Hpc. cbn in Hpc. injection Hpc as ->.
  assert (Hnil : Relay.wsCancel s' = None).
  { destruct Hcase as [(_ & _ & Hex & _)|[(_ & Habs & _)|(_ & Habs & _)]];
      [now apply Hex|discriminate|discriminate]. }
  split; [exact Hnil|]. intros c d j st k.
  unfold Relay.is_cancelled, Relay.websocketSendReceive. cbn [Relay.cancelled].
  now rewrite Hnil.
Qed.

Lemma returning_relay_clears_handle_witness :
  let s := RelayCount.after Relay.supersede_schedule Relay.init in
  let s' := RelayCount.after [Relay.Step 0; Relay.Step 0] s in
  Relay.wsCancel (RelayCount.after [Relay.Step 0] s) = Some 1%nat /\
  Relay.wsCancel s' = None /\
  forall (c : nat) (dial_ok json_ok : bool) (stream : list Relay.ws_message) (k : nat),
    Relay.is_cancelled (Relay.websocketSendReceive c dial_ok json_ok stream s') k
    = Relay.is_cancelled s' k.
Proof.
  split; [reflexivity|].
  apply (returning_relay_clears_handle 0
           (RelayCount.after [Relay.Step 0]
              (RelayCount.after Relay.supersede_schedule Relay.init))).
  - reflexivity.
  - reflexivity.
Defined.

Lemma cancelled_relay_writes_at_most_once_witness :
  let s := RelayCount.after Relay.supersede_schedule Relay.init in
  let s' := RelayCount.after [Relay.Step 0; Relay.Step 0] s in
  (RelayCount.frames_of 0 s' <= RelayCount.frames_of 0 s + RelayCount.pending 0 s)%nat /\
  (RelayCount.pending 0 s <= 1)%nat.
Proof.
  apply (cancelled_relay_writes_at_most_once [Relay.Step 0; Relay.Step 0]
           (RelayCount.after Relay.supersede_schedule Relay.init)).
  - reflexivity.
  - reflexivity.
Defined.

(** ** The added session properties on concrete frames *)

Lemma short_pause_does_not_split_witness :
  let speech1 := [Toy.speech] in
  let pause := repeat Toy.quiet 3 in
  let speech2 := [Toy.speech; Toy.speech] in
  let r := Toy.loop "hello" Toy.start (map slin (speech1 ++ pause ++ speech2)) in
  fst r = Continue /\
  calls (snd r) = [] /\
  trace (snd r) = [] /\
  inputAudioBuffer (snd r) = map pcm_floats (speech1 ++ speech2).
Proof.
  apply (short_pause_does_not_split _ _ Toy.vad_Process _ _
           (Toy.sendFloat32ArrayToServer "hello")
           Toy.API_SendMessage Toy.LLM_Chat Toy.websocketSendReceive
           Toy.start [Toy.speech] (repeat Toy.quiet 3) [Toy.speech; Toy.speech]).
  - reflexivity.
  - discriminate.
  - simpl. lia.
  - repeat constructor.
  - reflexivity.
Defined.

Lemma idle_silence_is_inert_witness :
  let r := Toy.loop "hello" Toy.start (map slin (repeat Toy.quiet 9)) in
  fst r = Continue /\
  calls (snd r) = [] /\
  trace (snd r) = [] /\
  world (snd r) = [] /\
  inputAudioBuffer (snd r) = [].
Proof.
  apply (idle_silence_is_inert _ _ Toy.vad_Process _ _
           (Toy.sendFloat32ArrayToServer "hello")
           Toy.API_SendMessage Toy.LLM_Chat Toy.websocketSendReceive
           (repeat Toy.quiet 9) Toy.start).
  - reflexivity.
  - repeat constructor.
  - reflexivity.
Defined.

Lemma short_utterance_dropped_witness :
  let speech := [frame_320 x01; frame_320 x01] in
  let quiet := repeat (frame_320 x00) 5 in
  let r := Toy.loop "hello" Toy.start
                    (map slin (speech ++ quiet ++ [frame_320 x00])) in
  fst r = Continue /\
  trace (snd r) = [] /\
  world (snd r) = [] /\
  inputAudioBuffer (snd r) = [] /\
  calls (snd r) = [] ++ [{| call_buffer := map pcm_floats speech;
                            call_chatID := "call-1";
                            call_stt := Toy.stt0;
                            call_llm := Toy.llm0 |}].
Proof.
  apply (short_utterance_dropped _ _ Toy.vad_Process _ _
           (Toy.sendFloat32ArrayToServer "hello")
           Toy.API_SendMessage Toy.LLM_Chat Toy.websocketSendReceive
           Toy.start [frame_320 x01; frame_320 x01] (repeat (frame_320 x00) 5)
           (frame_320 x00)).
  - reflexivity.
  - discriminate.
  - simpl. lia.
  - reflexivity.
  - repeat constructor.
  - vm_compute. reflexivity.
Defined.

Lemma full_exchange_witness :
  Toy.handle "hello" 7 (utterance_of 40) "call-1" Toy.stt0 Toy.llm0 []
  = (Toy.websocketSendReceive websocketURI
       {| data_message := "hi there"; data_language := "ru";
          data_speed := 1; data_await_time := 15 # 1000 |} 7
       [("user", "hello"); ("assistant", "hi there")]%string,
     exchange 7 "call-1" (List.concat (utterance_of 40)) Toy.stt0 Toy.llm0
              "hello" "hi there").
Proof.
  apply (full_exchange _ _ (Toy.sendFloat32ArrayToServer "hello")
           Toy.API_SendMessage Toy.LLM_Chat Toy.websocketSendReceive
           7%nat (utterance_of 40) "call-1"%string Toy.stt0 Toy.llm0
           [] [] [("user", "hello")]%string [("user", "hello")]%string
           [("user", "hello"); ("assistant", "hi there")]%string
           "hello"%string "hi there"%string).
  - vm_compute. reflexivity.
  - reflexivity.
  - simpl. intros [H|[H|[H|[]]]]; discriminate H.
  - reflexivity.
  - reflexivity.
  - reflexivity.
Defined.

Lemma unused_settings_ignored_witness :
  Toy.handle "hello" 7 (utterance_of 40) "call-1"
             (set_Language Toy.stt0 "de")
             {| llm_Model := "another-model"; llm_Seed := Some 42;
                llm_SystemPrompt := None;
                llm_Mirostat := None; llm_MirostatEta := None;
                llm_MirostatTau := None; llm_NumCtx := Some 4096;
                llm_RepeatLastN := None; llm_RepeatPenalty := None;
                llm_Temperature := None; llm_TfsZ := None;
                llm_NumPredict := Some 128;
                llm_TopK := Some 50; llm_TopP := None; llm_MinP := None |} []
  = Toy.handle "hello" 7 (utterance_of 40) "call-1" Toy.stt0 Toy.llm0 [].
Proof.
  apply (unused_settings_ignored _ _ (Toy.sendFloat32ArrayToServer "hello")
           Toy.API_SendMessage Toy.LLM_Chat Toy.websocketSendReceive).
  reflexivity.
Defined.

Lemma session_ends_at_first_terminal_witness :
  fst (Toy.loop "hello" Toy.start [slin Toy.speech; RecvFail; slin Toy.short])
  = Continue /\
  Toy.loop "hello" Toy.start
           ([slin Toy.speech; RecvFail; slin Toy.short] ++ RecvEOF :: [slin Toy.quiet])
  = (Return,
     snd (Toy.loop "hello" Toy.start [slin Toy.speech; RecvFail; slin Toy.short])).
Proof.
  destruct (session_ends_at_first_terminal _ _ Toy.vad_Process _ _
              (Toy.sendFloat32ArrayToServer "hello")
              Toy.API_SendMessage Toy.LLM_Chat Toy.websocketSendReceive
              Toy.start [slin Toy.speech; RecvFail; slin Toy.short]
              [slin Toy.quiet] RecvEOF) as [Hc Hr].
  - repeat constructor.
  - split; [exact Hc|]. apply Hr. reflexivity.
Defined.

(** ** The start of a session *)

Section SetupFacts.

Variable VAD : Type.
Variable vad_error : Type.
Variable World : Type.
Variable service_error : Type.
Variable webrtcvad_New : World -> result vad_error VAD * World.
Variable vad_SetMode : VAD -> Z -> result vad_error VAD.
Variable uuid_String : list byte -> string.
Variable API_GetChat : string -> World -> result service_error Chat * World.
Variable API_StartChat : string -> World -> result service_error unit * World.
Variable API_GetSttSettings : string -> World -> result service_error STTSettings * World.
Variable API_GetLlmSettings : string -> World -> result service_error LLMSettings * World.
Variable LLM_GetChat : string -> World -> bool.
Variable LLM_Chat_open : string -> string -> World -> result service_error unit * World.
Variable LLM_DeleteAllMessages : string -> World -> World.
Variable LLM_AddMessage : string -> ref -> ref -> World -> World.

Local Notation setup :=
  (Handle_setup webrtcvad_New vad_SetMode uuid_String API_GetChat API_StartChat
                API_GetSttSettings API_GetLlmSettings LLM_GetChat LLM_Chat_open
                LLM_DeleteAllMessages LLM_AddMessage).
Local Notation seeding := (seed LLM_AddMessage).
Local Notation model_side :=
  (seed_model (VAD := VAD) LLM_GetChat LLM_Chat_open LLM_DeleteAllMessages
              LLM_AddMessage).

Lemma getCallID_Ok (first : received) (uuid : list byte) :
  getCallID first = Ok uuid ->
  exists m, first = Recv m /\ Kind_of m = KindID /\ Payload m = uuid /\
            List.length uuid = 16%nat.
Proof.
  destruct first as [| |m]; cbn; try discriminate.
  destruct (Kind_of m) eqn:Hk; try discriminate.
  unfold uuid_FromBytes. destruct (Nat.eqb_spec (List.length (Payload m)) 16);
    [|discriminate].
  intros H. injection H as <-. now exists m.
Qed.

(** X19. Unless the first message is an identity message with a sixteen
    byte payload, the session ends before any call to the persistence
    service or to the model: nothing is fetched, created or seeded. *)
Theorem bad_first_message_ends_session (c : nat) (first : received) (w : World) :
  ~ (exists m, first = Recv m /\ Kind_of m = KindID /\
               List.length (Payload m) = 16%nat) ->
  snd (setup c first w) = [] /\
  forall s st, fst (fst (setup c first w)) <> Ready s st.
Proof.
  intros Hbad.
  assert (Herr : getCallID first = Err tt).
  { destruct (getCallID first) as [uuid|[]] eqn:Hid; [|reflexivity].
    exfalso. apply Hbad. apply getCallID_Ok in Hid as (m & -> & Hk & <- & Hl).
    now exists m. }
  unfold Handle_setup. destruct (webrtcvad_New w) as [[v0|e] w0].
  - destruct (vad_SetMode v0 3) as [v|e]; [rewrite Herr|]; cbn; split;
      auto; discriminate.
  - cbn. split; auto; discriminate.
Qed.

Lemma model_side_without_chat (c : nat) (id : string) (v : VAD)
    (stt : STTSettings) (llm : LLMSettings) (w : World) (evs : list setup_event) :
  forall s st, fst (fst (model_side c id v None stt llm w evs)) <> Ready s st.
Proof.
  intros s st. unfold seed_model.
  destruct (LLM_GetChat id w).
  - destruct (LLM_GetChat id w); cbn; discriminate.
  - destruct (LLM_Chat_open id chatModel w) as [[u|e] w1]; [|cbn; discriminate].
    destruct (LLM_GetChat id w1); cbn; discriminate.
Qed.

(** X20. When the chat of the call does not exist yet ([API.GetChat]
    fails), the session never enters the read loop: it returns on a failed
    service call, or it has the chat created, fetches the settings and then
    panics on [chat.Messages], the pointer being nil. *)
Theorem missing_chat_never_reaches_loop (c : nat) (first : received) (w : World) :
  (forall v0 w0 uuid,
     webrtcvad_New w = (Ok v0, w0) -> getCallID first = Ok uuid ->
     exists e w1, API_GetChat (uuid_String uuid) w0 = (Err e, w1)) ->
  forall s st, fst (fst (setup c first w)) <> Ready s st.
Proof.
  intros Hmissing s st. unfold Handle_setup.
  destruct (webrtcvad_New w) as [[v0|e0] w0] eqn:Hnew; [|cbn; discriminate].
  destruct (vad_SetMode v0 3) as [v|e1]; [|cbn; discriminate].
  destruct (getCallID first) as [uuid|e2] eqn:Hid; [|cbn; discriminate].
  destruct (Hmissing v0 w0 uuid eq_refl eq_refl) as (e & w1 & ->).
  destruct (API_StartChat (uuid_String uuid) w1) as [[u|e3] w2]; [|cbn; discriminate].
  destruct (API_GetSttSettings (uuid_String uuid) w2) as [[stt|e4] w3];
    [|cbn; discriminate].
  destruct (API_GetLlmSettings (uuid_String uuid) w3) as [[llm|e5] w4];
    [|cbn; discriminate].
  apply model_side_without_chat.
Qed.

Lemma last_cons_default {A : Type} (x : A) (l : list A) (d d' : A) :
  last (x :: l) d = last (x :: l) d'.
Proof.
  revert x. induction l as [|y l IH]; intros x; [reflexivity|].
  change (last (x :: y :: l) d) with (last (y :: l) d).
  change (last (x :: y :: l) d') with (last (y :: l) d'). apply IH.
Qed.

Lemma seeding_spec (id : string) (messages : list ChatMessage) :
  forall (current : option ChatMessage) (w : World),
  fst (fst (seeding id messages current w)) = last (map Some messages) current /\
  snd (seeding id messages current w)
  = map (fun m => SeAddMessage id RefLoopRole RefLoopContent
                               (msg_Role m) (Some (msg_Content m))) messages.
Proof.
  induction messages as [|m rest IH]; intros current w; [split; reflexivity|].
  cbn [seed].
  destruct (IH (Some m) (LLM_AddMessage id RefLoopRole RefLoopContent w)) as [Hf He].
  destruct (seeding id rest (Some m) _) as [[final w2] evs]. cbn [fst snd] in *.
  split; [|now rewrite He].
  rewrite Hf. cbn [map]. destruct rest as [|m' rest]; [reflexivity|].
  cbn [map]. change (last (Some m :: Some m' :: map Some rest) current)
    with (last (Some m' :: map Some rest) current).
  apply last_cons_default.
Qed.

(** What a session that reaches the loop has done before. *)
Lemma setup_ready (c : nat) (first : received) (w w' : World)
    (s : session VAD World) (st : store) (evs : list setup_event) :
  setup c first w = (Ready s st, w', evs) ->
  exists (v : VAD) (uuid : list byte) (ch : Chat) (stt : STTSettings)
         (llm : LLMSettings) (w0 w1 : World) (before : list setup_event),
    getCallID first = Ok uuid /\
    fst (API_GetChat (uuid_String uuid) w0) = Ok ch /\
    s = Handle_start c (uuid_String uuid) v stt llm w' /\
    st = {| st_system_prompt := llm_SystemPrompt llm;
            st_message := last (map Some (chat_Messages ch)) None |} /\
    history_at_call before = [] /\
    evs = before
          ++ SeAddMessage (uuid_String uuid) RefSystemRole RefSystemPrompt
                          "system" (llm_SystemPrompt llm)
          :: map (fun m => SeAddMessage (uuid_String uuid) RefLoopRole RefLoopContent
                                        (msg_Role m) (Some (msg_Content m)))
                 (chat_Messages ch).
Proof.
  unfold Handle_setup.
  destruct (webrtcvad_New w) as [[v0|e0] w0]; [|discriminate].
  destruct (vad_SetMode v0 3) as [v|e1]; [|discriminate].
  destruct (getCallID first) as [uuid|e2]; [|discriminate].
  set (id := uuid_String uuid).
  destruct (API_GetChat id w0) as [[ch|e] w1] eqn:Hchat.
  - destruct (API_GetSttSettings id w1) as [[stt|e4] w3]; [|discriminate].
    destruct (API_GetLlmSettings id w3) as [[llm|e5] w4]; [|discriminate].
    unfold seed_model.
    set (opened := if LLM_GetChat id w4 then _ else _).
    assert (Hop : exists r wo extra,
               opened = (r, wo, ([SeGetChat id]
                                 ++ [SeGetSttSettings id; SeGetLlmSettings id])
                                ++ extra)
               /\ history_at_call extra = []).
    { subst opened. destruct (LLM_GetChat id w4).
      - exists (Ok tt), w4, []. now rewrite app_nil_r.
      - destruct (LLM_Chat_open id chatModel w4) as [r wo].
        exists r, wo, [SeLLMChat id chatModel]. split; reflexivity. }
    destruct Hop as (r & wo & extra & -> & Hextra).
    destruct r as [u|e6]; [|discriminate].
    destruct (LLM_GetChat id wo); [|discriminate].
    pose proof (seeding_spec id (chat_Messages ch) None
                  (LLM_AddMessage id RefSystemRole RefSystemPrompt
                                  (LLM_DeleteAllMessages id wo))) as [Hf He].
    destruct (seeding id (chat_Messages ch) None _) as [[final w5] sevs].
    cbn [fst snd] in Hf, He. intros H. injection H as <- <- <- <-.
    subst id. exists v, uuid, ch, stt, llm, w0, w1,
      ((([SeGetChat (uuid_String uuid)]
         ++ [SeGetSttSettings (uuid_String uuid);
             SeGetLlmSettings (uuid_String uuid)]) ++ extra)
       ++ [SeDeleteAllMessages (uuid_String uuid)]).
    split; [reflexivity|]. split; [now rewrite Hchat|].
    split; [reflexivity|]. split; [now rewrite Hf|].
    split.
    + unfold history_at_call in *. rewrite !flat_map_app, Hextra. reflexivity.
    + rewrite He, <- !app_assoc. reflexivity.
  - destruct (API_StartChat id w1) as [[u|e3] w2]; [|discriminate].
    destruct (API_GetSttSettings id w2) as [[stt|e4] w3]; [|discriminate].
    destruct (API_GetLlmSettings id w3) as [[llm|e5] w4]; [|discriminate].
    intros H. exfalso.
    apply (model_side_without_chat c id v stt llm w4
             ([SeGetChat id; SeStartChat id]
              ++ [SeGetSttSettings id; SeGetLlmSettings id]) s st).
    now rewrite H.
Qed.

Lemma history_at_call_map (id : string) (messages : list ChatMessage) :
  history_at_call
    (map (fun m => SeAddMessage id RefLoopRole RefLoopContent
                                (msg_Role m) (Some (msg_Content m))) messages)
  = map (fun m => (msg_Role m, Some (msg_Content m))) messages.
Proof.
  induction messages as [|m rest IH]; [reflexivity|].
  cbn. f_equal. exact IH.
Qed.

Lemma history_in_map (st : store) (id : string) (messages : list ChatMessage) :
  history_in st
    (map (fun m => SeAddMessage id RefLoopRole RefLoopContent
                                (msg_Role m) (Some (msg_Content m))) messages)
  = map (fun _ => (option_map msg_Role (st_message st),
                   option_map msg_Content (st_message st))) messages.
Proof.
  induction messages as [|m rest IH]; [reflexivity|].
  cbn. f_equal. exact IH.
Qed.

Lemma history_in_none (st : store) (evs : list setup_event) :
  history_at_call evs = [] -> history_in st evs = [].
Proof.
  induction evs as [|e evs IH]; [reflexivity|].
  destruct e; cbn; auto. discriminate.
Qed.

Lemma map_const_repeat {A B : Type} (x : B) (l : list A) :
  map (fun _ => x) l = repeat x (List.length l).
Proof. induction l as [|a l IH]; [reflexivity|]. cbn. now rewrite IH. Qed.

(** X21. A session that reaches the loop has passed to [AddMessage], in
    this order, the system prompt of the fetched LLM settings and then the
    persisted messages of the chat, each with its own role and content at
    the time of the call; it enters the loop with an empty buffer, a zero
    silence counter and the chat identifier printed from the identity
    message. *)
Theorem history_seeded_in_call_order (c : nat) (first : received) (w w' : World)
    (s : session VAD World) (st : store) (evs : list setup_event) :
  setup c first w = (Ready s st, w', evs) ->
  exists (uuid : list byte) (ch : Chat) (w0 : World),
    getCallID first = Ok uuid /\
    fst (API_GetChat (uuid_String uuid) w0) = Ok ch /\
    ChatID s = uuid_String uuid /\
    inputAudioBuffer s = [] /\ silenceCount s = 0 /\ calls s = [] /\
    history_at_call evs
    = ("system"%string, llm_SystemPrompt (llmSettings s))
      :: map (fun m => (msg_Role m, Some (msg_Content m))) (chat_Messages ch).
Proof.
  intros H.
  apply setup_ready in H
    as (v & uuid & ch & stt & llm & w0 & w1 & before & Hid & Hch & -> & -> & Hb & ->).
  exists uuid, ch, w0. repeat (split; [first [assumption|reflexivity]|]).
  unfold history_at_call in *. rewrite flat_map_app, Hb. cbn [app flat_map].
  f_equal. apply history_at_call_map.
Qed.

(** X22. All persisted messages are passed to [AddMessage] through the
    same two pointers, the addresses of the fields of the one range
    variable.  Once the loop has ended they all denote the last persisted
    message: read through those pointers, the seeded history is the system
    prompt followed by as many copies of the last message as there are
    persisted messages. *)
Theorem seeded_history_aliases_last_message (c : nat) (first : received)
    (w w' : World) (s : session VAD World) (st : store) (evs : list setup_event) :
  setup c first w = (Ready s st, w', evs) ->
  exists (uuid : list byte) (ch : Chat) (w0 : World),
    getCallID first = Ok uuid /\
    fst (API_GetChat (uuid_String uuid) w0) = Ok ch /\
    forall final : ChatMessage,
      last (map Some (chat_Messages ch)) None = Some final ->
      history_in st evs
      = (Some "system"%string, llm_SystemPrompt (llmSettings s))
        :: repeat (Some (msg_Role final), Some (msg_Content final))
                  (List.length (chat_Messages ch)).
Proof.
  intros H.
  apply setup_ready in H
    as (v & uuid & ch & stt & llm & w0 & w1 & before & Hid & Hch & -> & -> & Hb & ->).
  exists uuid, ch, w0. split; [exact Hid|]. split; [exact Hch|].
  intros final Hlast.
  unfold history_in at 1. rewrite flat_map_app.
  fold (history_in {| st_system_prompt := llm_SystemPrompt llm;
                      st_message := last (map Some (chat_Messages ch)) None |} before).
  rewrite (history_in_none _ before Hb). cbn [app flat_map deref st_system_prompt].
  f_equal.
  change (flat_map _ ?l) with
    (history_in {| st_system_prompt := llm_SystemPrompt llm;
                   st_message := last (map Some (chat_Messages ch)) None |} l).
  rewrite history_in_map. cbn [st_message]. rewrite Hlast. cbn [option_map].
  apply map_const_repeat.
Qed.

End SetupFacts.

Lemma bad_first_message_ends_session_witness :
  snd (ToySetup.setup 7 (hangup []) true) = [] /\
  forall s st, fst (fst (ToySetup.setup 7 (hangup []) true)) <> Ready s st.
Proof.
  apply (bad_first_message_ends_session unit unit bool unit
           ToySetup.webrtcvad_New ToySetup.vad_SetMode ToySetup.uuid_String
           ToySetup.API_GetChat ToySetup.API_StartChat ToySetup.API_GetSttSettings
           ToySetup.API_GetLlmSettings ToySetup.LLM_GetChat ToySetup.LLM_Chat_open
           ToySetup.LLM_DeleteAllMessages ToySetup.LLM_AddMessage
           7%nat (hangup []) true).
  intros (m & Heq & Hk & _). injection Heq as <-. discriminate Hk.
Defined.

Lemma missing_chat_never_reaches_loop_witness :
  ~ (exists s st, fst (fst (ToySetup.setup 7 ToySetup.identity false)) = Ready s st).
Proof.
  intros (s & st & H). revert H.
  apply (missing_chat_never_reaches_loop unit unit bool unit
           ToySetup.webrtcvad_New ToySetup.vad_SetMode ToySetup.uuid_String
           ToySetup.API_GetChat ToySetup.API_StartChat ToySetup.API_GetSttSettings
           ToySetup.API_GetLlmSettings ToySetup.LLM_GetChat ToySetup.LLM_Chat_open
           ToySetup.LLM_DeleteAllMessages ToySetup.LLM_AddMessage
           7%nat ToySetup.identity false).
  intros v0 w0 uuid Hnew _. injection Hnew as _ <-. exists tt, false. reflexivity.
Defined.

Lemma history_seeded_in_call_order_witness :
  exists (uuid : list byte) (ch : Chat) (w0 : bool),
    getCallID ToySetup.identity = Ok uuid /\
    fst (ToySetup.API_GetChat (ToySetup.uuid_String uuid) w0) = Ok ch /\
    ChatID (Handle_start 7 "call-1" tt Toy.stt0 Toy.llm0 true)
    = ToySetup.uuid_String uuid /\
    inputAudioBuffer (Handle_start 7 "call-1" tt Toy.stt0 Toy.llm0 true) = [] /\
    silenceCount (Handle_start 7 "call-1" tt Toy.stt0 Toy.llm0 true) = 0 /\
    calls (Handle_start 7 "call-1" tt Toy.stt0 Toy.llm0 true) = [] /\
    history_at_call (snd (ToySetup.setup 7 ToySetup.identity true))
    = ("system"%string,
       llm_SystemPrompt (llmSettings (Handle_start 7 "call-1" tt Toy.stt0 Toy.llm0 true)))
      :: map (fun m => (msg_Role m, Some (msg_Content m))) (chat_Messages ch).
Proof.
  apply (history_seeded_in_call_order unit unit bool unit
           ToySetup.webrtcvad_New ToySetup.vad_SetMode ToySetup.uuid_String
           ToySetup.API_GetChat ToySetup.API_StartChat ToySetup.API_GetSttSettings
           ToySetup.API_GetLlmSettings ToySetup.LLM_GetChat ToySetup.LLM_Chat_open
           ToySetup.LLM_DeleteAllMessages ToySetup.LLM_AddMessage
           7%nat ToySetup.identity true true
           (Handle_start 7 "call-1" tt Toy.stt0 Toy.llm0 true)
           {| st_system_prompt := llm_SystemPrompt Toy.llm0;
              st_message := Some {| msg_Role := "user"; msg_Content := "bye" |} |}
           (snd (ToySetup.setup 7 ToySetup.identity true))).
  reflexivity.
Defined.

Lemma seeded_history_aliases_last_message_witness :
  exists (uuid : list byte) (ch : Chat) (w0 : bool),
    getCallID ToySetup.identity = Ok uuid /\
    fst (ToySetup.API_GetChat (ToySetup.uuid_String uuid) w0) = Ok ch /\
    forall final : ChatMessage,
      last (map Some (chat_Messages ch)) None = Some final ->
      history_in {| st_system_prompt := llm_SystemPrompt Toy.llm0;
                    st_message := Some {| msg_Role := "user"; msg_Content := "bye" |} |}
                 (snd (ToySetup.setup 7 ToySetup.identity true))
      = (Some "system"%string,
         llm_SystemPrompt (llmSettings (Handle_start 7 "call-1" tt Toy.stt0 Toy.llm0 true)))
        :: repeat (Some (msg_Role final), Some (msg_Content final))
                  (List.length (chat_Messages ch)).
Proof.
  apply (seeded_history_aliases_last_message unit unit bool unit
           ToySetup.webrtcvad_New ToySetup.vad_SetMode ToySetup.uuid_String
           ToySetup.API_GetChat ToySetup.API_StartChat ToySetup.API_GetSttSettings
           ToySetup.API_GetLlmSettings ToySetup.LLM_GetChat ToySetup.LLM_Chat_open
           ToySetup.LLM_DeleteAllMessages ToySetup.LLM_AddMessage
           7%nat ToySetup.identity true true
           (Handle_start 7 "call-1" tt Toy.stt0 Toy.llm0 true)).
  reflexivity.
Defined.

(** ** The chat store *)

Section StoreFacts.

Variable World : Type.
Variable ChatAPI_SendMessage :
  string -> string -> string -> World -> result string Api.Message * World.
Variable OllamaAPI_Chat :
  Api.OllamaChatRequest -> World -> result string Api.OllamaChatResponse * World.
Variable TrimSpace : string -> string.

Local Notation send := (Api.SendMessage ChatAPI_SendMessage OllamaAPI_Chat TrimSpace).

Lemma role_of_cases (sender : string) :
  Api.role_of sender = "user"%string \/
  Api.role_of sender = "assistant"%string \/
  Api.role_of sender = "system"%string.
Proof.
  unfold Api.role_of.
  destruct (String.eqb sender Api.SenderUser); [auto|].
  destruct (String.eqb sender Api.SenderAssistant); [auto|].
  destruct (String.eqb sender Api.SenderSystem); auto.
Qed.

(** X23. With a chat identifier or a content that is empty once trimmed,
    [SendMessage] fails without calling the backend or the model and leaves
    the store, its [Error] field included, as it was. *)
Theorem blank_input_rejected (cs : Api.ChatStore) (content : string) (w : World) :
  TrimSpace (Api.CurrentChat cs) = EmptyString \/ TrimSpace content = EmptyString ->
  send cs content w
  = (Api.Failed "current chat ID or content is empty", cs, w, []).
Proof.
  intros H. unfold Api.SendMessage.
  destruct H as [-> | ->]; cbn [String.eqb orb]; [reflexivity|].
  now rewrite orb_true_r.
Qed.


(** X25. Whenever the model is called, the request lists the system
    prompt (empty if none is set) first, then every stored message in
    order, then the user message as the backend returned it; streaming is
    off; and every role in it is "user", "assistant" or "system", any other
    stored role being sent as "system". *)
Theorem ollama_request_shape (cs : Api.ChatStore) (content : string) (w : World)
    (request : Api.OllamaChatRequest) :
  In (Api.CallOllama request) (snd (send cs content w)) ->
  exists userMsg,
    fst (ChatAPI_SendMessage (Api.CurrentChat cs) Api.SenderUser content w)
    = Ok userMsg /\
    Api.req_Messages request
    = {| Api.om_Role := "system";
         Api.om_Content := match Api.SystemPrompt cs with
                           | Some p => p
                           | None => EmptyString
                           end |}
      :: map Api.to_ollama (Api.Messages cs) ++ [Api.to_ollama userMsg] /\
    Api.req_Stream request = false /\
    Some (Api.req_Model request) = Api.Model cs /\
    Forall (fun m => Api.om_Role m = "user"%string \/
                     Api.om_Role m = "assistant"%string \/
                     Api.om_Role m = "system"%string)
           (Api.req_Messages request).
Proof.
  unfold Api.SendMessage.
  destruct (_ || _); [intros []|].
  destruct (ChatAPI_SendMessage _ _ _ w) as [[userMsg|e] w1];
    [|cbn; intros [H|[]]; discriminate H].
  cbn [Api.Model Api.with_Message Api.SystemPrompt Api.CurrentChat Api.Messages].
  destruct (Api.Model cs) as [model|]; [|cbn; intros [H|[]]; discriminate H].
  set (request0 := {| Api.req_Model := model; Api.req_Messages := _;
                      Api.req_Stream := false; Api.req_Options := _ |}).
  assert (Hreq : In (Api.CallOllama request)
                    ([Api.CallSendMessage (Api.CurrentChat cs) Api.SenderUser content]
                     ++ [Api.CallOllama request0]) -> request = request0).
  { cbn. intros [H|[H|[]]]; [discriminate H|now injection H]. }
  assert (Hin : In (Api.CallOllama request) (snd (
      match OllamaAPI_Chat request0 w1 with
      | (Ok response, w2) =>
          if String.eqb (TrimSpace (Api.resp_Content response)) ""
          then (Api.Failed "received empty response from Ollama API",
                Api.with_Error (Api.with_Message cs userMsg)
                               "received empty response from Ollama API", w2,
                [Api.CallSendMessage (Api.CurrentChat cs) Api.SenderUser content]
                ++ [Api.CallOllama request0])
          else
            match ChatAPI_SendMessage (Api.CurrentChat cs) Api.SenderAssistant
                                      (TrimSpace (Api.resp_Content response)) w2 with
            | (Ok assistantMsg, w3) =>
                (Api.Replied response,
                 Api.with_Message (Api.with_Message cs userMsg) assistantMsg, w3,
                 ([Api.CallSendMessage (Api.CurrentChat cs) Api.SenderUser content]
                  ++ [Api.CallOllama request0])
                 ++ [Api.CallSendMessage (Api.CurrentChat cs) Api.SenderAssistant
                                         (TrimSpace (Api.resp_Content response))])
            | (Err e, w3) =>
                (Api.Failed e, Api.with_Error (Api.with_Message cs userMsg) e, w3,
                 ([Api.CallSendMessage (Api.CurrentChat cs) Api.SenderUser content]
                  ++ [Api.CallOllama request0])
                 ++ [Api.CallSendMessage (Api.CurrentChat cs) Api.SenderAssistant
                                         (TrimSpace (Api.resp_Content response))])
            end
      | (Err e, w2) =>
          (Api.Failed e, Api.with_Error (Api.with_Message cs userMsg) e, w2,
           [Api.CallSendMessage (Api.CurrentChat cs) Api.SenderUser content]
           ++ [Api.CallOllama request0])
      end)) -> request = request0).
  { destruct (OllamaAPI_Chat request0 w1) as [[response|e] w2]; [|exact Hreq].
    destruct (String.eqb _ _); [exact Hreq|].
    destruct (ChatAPI_SendMessage _ _ _ w2) as [[assistantMsg|e] w3]; cbn [snd];
      intros H; apply in_app_or in H as [H|[H|[]]];
      solve [now apply Hreq | discriminate H]. }
  intros H. apply Hin in H. subst request. exists userMsg.
  split; [reflexivity|]. split; [cbn; now rewrite map_app|].
  split; [reflexivity|]. split; [reflexivity|].
  cbn [Api.req_Messages request0]. constructor; [cbn; auto|].
  apply Forall_forall. intros m Hm. apply in_map_iff in Hm as (m0 & <- & _).
  apply role_of_cases.
Qed.

(** X26. A store without a model panics in [SendMessage], and only
    after the user message has been sent to the backend and appended to the
    stored messages; the model is not called. *)
Theorem no_model_panics_after_user_message (cs : Api.ChatStore) (content : string)
    (w w1 : World) (userMsg : Api.Message) :
  Api.Model cs = None ->
  TrimSpace (Api.CurrentChat cs) <> EmptyString ->
  TrimSpace content <> EmptyString ->
  ChatAPI_SendMessage (Api.CurrentChat cs) Api.SenderUser content w = (Ok userMsg, w1) ->
  send cs content w
  = (Api.Panic, Api.with_Message cs userMsg, w1,
     [Api.CallSendMessage (Api.CurrentChat cs) Api.SenderUser content]).
Proof.
  intros Hmodel Hchat Hcontent Hsend. unfold Api.SendMessage.
  apply String.eqb_neq in Hchat, Hcontent. rewrite Hchat, Hcontent, Hsend.
  cbn [orb Api.Model Api.with_Message]. now rewrite Hmodel.
Qed.

End StoreFacts.

Lemma blank_input_rejected_witness :
  Api.SendMessage Api.toy_send Api.toy_chat Api.trim Api.store0 "   " 5%nat
  = (Api.Failed "current chat ID or content is empty", Api.store0, 5%nat, []).
Proof.
  apply (blank_input_rejected nat Api.toy_send Api.toy_chat Api.trim
           Api.store0 "   "%string 5%nat).
  right. reflexivity.
Defined.

Lemma ollama_request_shape_witness :
  let request :=
    {| Api.req_Model := "gemma2:9b";
       Api.req_Messages :=
         [ {| Api.om_Role := "system"; Api.om_Content := "" |};
           {| Api.om_Role := "system"; Api.om_Content := "earlier" |};
           {| Api.om_Role := "user"; Api.om_Content := "ping" |} ];
       Api.req_Stream := false;
       Api.req_Options := [("model", "gemma2:9b")]%string |} in
  exists userMsg,
    fst (Api.toy_send (Api.CurrentChat Api.store0) Api.SenderUser "ping" 5%nat)
    = Ok userMsg /\
    Api.req_Messages request
    = {| Api.om_Role := "system";
         Api.om_Content := match Api.SystemPrompt Api.store0 with
                           | Some p => p
                           | None => EmptyString
                           end |}
      :: map Api.to_ollama (Api.Messages Api.store0) ++ [Api.to_ollama userMsg] /\
    Api.req_Stream request = false /\
    Some (Api.req_Model request) = Api.Model Api.store0 /\
    Forall (fun m => Api.om_Role m = "user"%string \/
                     Api.om_Role m = "assistant"%string \/
                     Api.om_Role m = "system"%string)
           (Api.req_Messages request).
Proof.
  apply (ollama_request_shape nat Api.toy_send Api.toy_chat Api.trim
           Api.store0 "ping"%string 5%nat).
  vm_compute. right. left. reflexivity.
Defined.

Lemma no_model_panics_after_user_message_witness :
  let cs := {| Api.CurrentChat := "chat-1"; Api.Messages := [];
               Api.Model := None; Api.SystemPrompt := Some "Be brief."%string;
               Api.Error := "" |} in
  let userMsg := {| Api.msg_ID := 5; Api.msg_ChatID := "chat-1";
                    Api.msg_Role := "user"; Api.msg_Content := "ping" |} in
  Api.SendMessage Api.toy_send Api.toy_chat Api.trim cs "ping" 5%nat
  = (Api.Panic, Api.with_Message cs userMsg, 6%nat,
     [Api.CallSendMessage "chat-1" Api.SenderUser "ping"]).
Proof.
  apply (no_model_panics_after_user_message nat Api.toy_send Api.toy_chat Api.trim
           {| Api.CurrentChat := "chat-1"; Api.Messages := [];
              Api.Model := None; Api.SystemPrompt := Some "Be brief."%string;
              Api.Error := "" |} "ping"%string 5%nat 6%nat).
  - reflexivity.
  - discriminate.
  - discriminate.
  - reflexivity.
Defined.
